(** * twirp-todo-example: the statement cache and the HTTP server lifecycle

    A shallow embedding of the prepared statement cache of package [todo]
    ([internal/todo/stmtcache.go], lines 1-76) and of package [httpserver]
    (the same file, lines 569-775: server construction, middleware chain,
    route registration, [Run] and [WaitForAddress]), together with the
    properties the specification states about them.  Line numbers are those
    of that file.

    Further on come the other packages of the repository that the server
    is built from: [metadata], [stackdriver] (lines 208-568 of the same
    file), [logging], and the request handlers of package [todo]
    ([internal/todo/todo.go]). *)

From stdpp Require Import gmap strings list fin_maps.
From stdpp Require Import pretty.

Open Scope string_scope.
Open Scope list_scope.

(** ** Go values shared by both packages *)

(** A Go [error] is [nil] or a non-nil error value; a Go pointer such as
    [*sql.Stmt] is [nil] or the identity of an object.  Both are read as
    [option]s: [None] is [nil]. *)

(** What a call does: it returns, or it panics. *)
Inductive outcome (A : Type) := Returns (a : A) | Panics.
Arguments Returns {A} a.
Arguments Panics {A}.

Definition outcome_bind {A B} (x : outcome A) (f : A -> outcome B)
  : outcome B :=
  match x with
  | Returns a => f a
  | Panics => Panics
  end.

(** ** package todo: [stmtCache] *)

Module StmtCache.

(** [sync.RWMutex]: how many readers hold it and whether a writer does.
    Go also holds new readers back while a writer waits; here they get in,
    which is one more way to schedule the goroutines and changes nothing for
    a schedule in which no writer waits. *)
Record RWMutex := mkRWMutex { readers : nat; writer : bool }.

Definition unlocked : RWMutex := {| readers := 0; writer := false |}.

(** [RLock]: [None] when the caller has to wait. *)
Definition RLock (l : RWMutex) : option RWMutex :=
  if writer l then None
  else Some {| readers := S (readers l); writer := false |}.

Definition RUnlock (l : RWMutex) : RWMutex :=
  {| readers := pred (readers l); writer := writer l |}.

(** [Lock]: [None] when the caller has to wait. *)
Definition Lock (l : RWMutex) : option RWMutex :=
  if writer l then None
  else match readers l with
       | O => Some {| readers := 0; writer := true |}
       | S _ => None
       end.

Definition Unlock (l : RWMutex) : RWMutex :=
  {| readers := readers l; writer := false |}.

Section cache.

(** [Stmt] is the identity of a [sql.Stmt] object, [Err] a non-nil
    [error], [DB] the state of whatever stands behind the preparer and the
    statements (the database connection). *)
Context {Stmt Err DB : Type}.

(** [args ...interface{}], [*sql.Rows] and [sql.Result]. *)
Context {Args Rows Result : Type}.

(** [preparer.PrepareContext(ctx, query)], the creation callback. *)
Variable prepare : DB -> string -> DB * (option Stmt * option Err).

(** [stmt.Close()] of a non-nil statement. *)
Variable stmtClose : DB -> Stmt -> DB * option Err.

(** [stmt.QueryContext(ctx, args...)] and [stmt.ExecContext(ctx, args...)]
    on the pointer [PrepareContext] returned, which may be nil: what the
    method does then is the library's business, so the whole pointer is
    handed over and the call may panic. *)
Variable stmtQuery
  : DB -> option Stmt -> Args -> DB * outcome (option Rows * option Err).
Variable stmtExec
  : DB -> option Stmt -> Args -> DB * outcome (option Result * option Err).

(** [type stmtCache struct { lock; statements; preparer }]; the preparer
    is the section variable [prepare]. *)
Record stmtCache := mkCache {
  lock : RWMutex;
  statements : gmap string (option Stmt)
}.

(** The world outside the cache, with two logs that only record what was
    called: the queries handed to the preparer, and the statements whose
    [Close] ran, both oldest first. *)
Record world := mkWorld {
  db : DB;
  prepared : list string;
  closed : list Stmt
}.

Definition newStmtCache : stmtCache :=
  {| lock := unlocked; statements := ∅ |}.

Definition with_lock (l : RWMutex) (c : stmtCache) : stmtCache :=
  {| lock := l; statements := statements c |}.

Definition with_statements (m : gmap string (option Stmt)) (c : stmtCache)
  : stmtCache :=
  {| lock := lock c; statements := m |}.

(** line 55: the call of the preparer, logged. *)
Definition call_prepare (w : world) (query : string)
  : world * (option Stmt * option Err) :=
  let '(d, r) := prepare (db w) query in
  ({| db := d; prepared := prepared w ++ [query]; closed := closed w |}, r).

(** line 39: [_ = stmt.Close()], the error dropped, logged. *)
Definition call_close (w : world) (s : Stmt) : world :=
  let '(d, _) := stmtClose (db w) s in
  {| db := d; prepared := prepared w; closed := closed w ++ [s] |}.

(** lines 56-58: [if err == nil { c.statements[query] = stmt }]. *)
Definition store (query : string) (stmt : option Stmt) (err : option Err)
    (c : stmtCache) : stmtCache :=
  match err with
  | None => with_statements (<[query := stmt]> (statements c)) c
  | Some _ => c
  end.

(** *** One call at a time

    [PrepareContext] (lines 43-60) run with no other call in flight: both
    lock sections are entered at once and left again, so the lock is the
    same before and after. *)
Definition PrepareContext (c : stmtCache) (w : world) (query : string)
  : stmtCache * world * (option Stmt * option Err) :=
  match statements c !! query with
  | Some stmt => (c, w, (stmt, None))
  | None =>
      let '(w', (stmt, err)) := call_prepare w query in
      (store query stmt err c, w', (stmt, err))
  end.

(** lines 32-40, one turn of [for key, stmt := range c.statements]: the
    entry is deleted, and a non-nil statement is closed.  A key whose entry
    is gone when the loop reaches it is not produced. *)
Definition range_body (key : string) (m : gmap string (option Stmt))
    (w : world) : gmap string (option Stmt) * world :=
  match m !! key with
  | None => (m, w)
  | Some stmt =>
      let m' := delete key m in
      match stmt with
      | None => (m', w)
      | Some s => (m', call_close w s)
      end
  end.

Fixpoint range_close (keys : list string) (m : gmap string (option Stmt))
    (w : world) : gmap string (option Stmt) * world :=
  match keys with
  | [] => (m, w)
  | key :: rest =>
      let '(m', w') := range_body key m w in range_close rest m' w'
  end.

(** [Close] (lines 28-41) run with no other call in flight.  Go leaves the
    order of a map range open: [order] is the order this run of the loop
    visits the keys in. *)
Definition Close (order : list string) (c : stmtCache) (w : world)
  : stmtCache * world :=
  let '(m, w') := range_close order (statements c) w in
  (with_statements m c, w').

(** The statements a cache holds: its non-nil values. *)
Definition held (m : gmap string (option Stmt)) : list Stmt :=
  omap id (map_to_list m).*2.

Definition with_db (d : DB) (w : world) : world :=
  {| db := d; prepared := prepared w; closed := closed w |}.

(** [QueryContext] (lines 62-68). *)
Definition QueryContext (c : stmtCache) (w : world) (query : string)
    (args : Args)
  : stmtCache * world * outcome (option Rows * option Err) :=
  let '(c', w', (stmt, err)) := PrepareContext c w query in
  match err with
  | Some e => (c', w', Returns (None, Some e))
  | None =>
      let '(d, r) := stmtQuery (db w') stmt args in (c', with_db d w', r)
  end.

(** [ExecContext] (lines 70-76). *)
Definition ExecContext (c : stmtCache) (w : world) (query : string)
    (args : Args)
  : stmtCache * world * outcome (option Result * option Err) :=
  let '(c', w', (stmt, err)) := PrepareContext c w query in
  match err with
  | Some e => (c', w', Returns (None, Some e))
  | None =>
      let '(d, r) := stmtExec (db w') stmt args in (c', with_db d w', r)
  end.

(** A call of the cache other than [Close], for sequences of calls. *)
Inductive call :=
| CallPrepare (query : string)
| CallQuery (query : string) (args : Args)
| CallExec (query : string) (args : Args).

Definition do_call (cw : stmtCache * world) (k : call) : stmtCache * world :=
  match k with
  | CallPrepare q => (PrepareContext cw.1 cw.2 q).1
  | CallQuery q args => (QueryContext cw.1 cw.2 q args).1
  | CallExec q args => (ExecContext cw.1 cw.2 q args).1
  end.

Definition do_calls (ks : list call) (cw : stmtCache * world)
  : stmtCache * world :=
  foldl do_call cw ks.

(** *** Calls in flight together

    Each goroutine inside [PrepareContext] or [Close] is at one of these
    places; what it has read so far travels with it. *)
Inductive pc :=
| PStart (query : string)                              (* line 44 *)
| PRead (query : string)                               (* line 45 *)
| PRUnlock (query : string) (stmt : option Stmt) (ok : bool) (* line 46 *)
| PCheck (query : string) (stmt : option Stmt) (ok : bool)   (* line 48 *)
| PLock (query : string)                               (* line 52 *)
| PPrepare (query : string)                            (* line 55 *)
| PStore (query : string) (stmt : option Stmt) (err : option Err) (* 56 *)
| PUnlock (stmt : option Stmt) (err : option Err)      (* lines 53, 59 *)
| PDone (stmt : option Stmt) (err : option Err)
| CStart (order : list string)                         (* line 29 *)
| CLoop (keys : list string)                           (* lines 32-40 *)
| CDone.

(** One step of one goroutine; [None] when it waits for the lock or has
    returned. *)
Definition thread_step (c : stmtCache) (w : world) (p : pc)
  : option (stmtCache * world * pc) :=
  match p with
  | PStart q =>
      l ← RLock (lock c); Some (with_lock l c, w, PRead q)
  | PRead q =>
      Some (c, w, match statements c !! q with
                  | Some stmt => PRUnlock q stmt true
                  | None => PRUnlock q None false
                  end)
  | PRUnlock q stmt ok =>
      Some (with_lock (RUnlock (lock c)) c, w, PCheck q stmt ok)
  | PCheck q stmt ok =>
      Some (c, w, if ok then PDone stmt None else PLock q)
  | PLock q =>
      l ← Lock (lock c); Some (with_lock l c, w, PPrepare q)
  | PPrepare q =>
      let '(w', (stmt, err)) := call_prepare w q in
      Some (c, w', PStore q stmt err)
  | PStore q stmt err =>
      Some (store q stmt err c, w, PUnlock stmt err)
  | PUnlock stmt err =>
      Some (with_lock (Unlock (lock c)) c, w, PDone stmt err)
  | PDone _ _ => None
  | CStart order =>
      l ← Lock (lock c); Some (with_lock l c, w, CLoop order)
  | CLoop (key :: rest) =>
      let '(m, w') := range_body key (statements c) w in
      Some (with_statements m c, w', CLoop rest)
  | CLoop [] =>
      Some (with_lock (Unlock (lock c)) c, w, CDone)
  | CDone => None
  end.

Record state := mkState {
  cache : stmtCache;
  env : world;
  threads : list pc
}.

(** The scheduler lets goroutine [tid] take its next step. *)
Definition step (st : state) (tid : nat) : option state :=
  p ← threads st !! tid;
  '(c, w, p') ← thread_step (cache st) (env st) p;
  Some {| cache := c; env := w; threads := <[tid := p']> (threads st) |}.

(** A schedule is the list of goroutines that step, in order. *)
Fixpoint run (sched : list nat) (st : state) : option state :=
  match sched with
  | [] => Some st
  | tid :: rest => st' ← step st tid; run rest st'
  end.

(** The goroutine is about to take the lock (lines 44, 52 and 29). *)
Definition acquires (p : pc) : bool :=
  match p with
  | PStart _ | PLock _ | CStart _ => true
  | _ => false
  end.

(** The goroutine is between [RLock] and [RUnlock] (lines 44-46). *)
Definition reading (p : pc) : bool :=
  match p with
  | PRead _ | PRUnlock _ _ _ => true
  | _ => false
  end.

(** The goroutine is between [Lock] and the deferred [Unlock] (lines 52-59
    and 29-41). *)
Definition writing (p : pc) : bool :=
  match p with
  | PPrepare _ | PStore _ _ _ | PUnlock _ _ | CLoop _ => true
  | _ => false
  end.

Fixpoint count (f : pc -> bool) (ts : list pc) : nat :=
  match ts with
  | [] => 0
  | p :: rest => (if f p then 1 else 0) + count f rest
  end.

(** The lock says what the goroutines do: as many readers as goroutines in
    a read section, the writer flag up exactly when one goroutine is in a
    write section, and no reader then. *)
Definition well_locked (st : state) : Prop :=
  count reading (threads st) = readers (lock (cache st)) ∧
  count writing (threads st) = (if writer (lock (cache st)) then 1 else 0) ∧
  (writer (lock (cache st)) = true -> readers (lock (cache st)) = 0).

(** The query a call of the cache is for. *)
Definition query_of (k : call) : string :=
  match k with
  | CallPrepare q | CallQuery q _ | CallExec q _ => q
  end.

(** The goroutine is at the first line of its call (lines 44 and 29). *)
Definition starting (p : pc) : bool :=
  match p with
  | PStart _ | CStart _ => true
  | _ => false
  end.

(** The goroutine has returned from its call. *)
Definition returned (p : pc) : bool :=
  match p with
  | PDone _ _ | CDone => true
  | _ => false
  end.

(** The goroutine is in [PrepareContext] and has not yet come to the call
    of the preparer at line 55. *)
Definition before_prepare (p : pc) : bool :=
  match p with
  | PStart _ | PRead _ | PRUnlock _ _ _ | PCheck _ _ _ | PLock _
  | PPrepare _ => true
  | _ => false
  end.

(** The most steps the goroutine still has to take before it returns. *)
Definition remaining (p : pc) : nat :=
  match p with
  | PStart _ => 8
  | PRead _ => 7
  | PRUnlock _ _ _ => 6
  | PCheck _ _ _ => 5
  | PLock _ => 4
  | PPrepare _ => 3
  | PStore _ _ _ => 2
  | PUnlock _ _ => 1
  | PDone _ _ => 0
  | CStart order => S (S (length order))
  | CLoop keys => S (length keys)
  | CDone => 0
  end.

Fixpoint budget (ts : list pc) : nat :=
  match ts with
  | [] => 0
  | p :: rest => remaining p + budget rest
  end.

End cache.

End StmtCache.

(** ** github.com/justinas/alice, as far as the server uses it

    [alice.Chain] is imported by the server (line 581) and is not among the
    repository's files; [Append] and [Then] follow that library's
    [chain.go]: a chain is the slice of its constructors, [Append] returns
    the chain with the new constructors at the end, and [Then] runs
    [for i := range c.constructors { h = c.constructors[len-1-i](h) }]. *)

Module alice.
Section chain.

Context {H : Type}.

Definition Constructor := H -> H.

Record Chain := mkChain { constructors : list Constructor }.

Definition New (cs : list Constructor) : Chain := {| constructors := cs |}.

Definition Append (c : Chain) (m : Constructor) : Chain :=
  {| constructors := constructors c ++ [m] |}.

Definition Then (c : Chain) (h : H) : H :=
  let n := length (constructors c) in
  foldl (fun h i =>
           match constructors c !! (n - 1 - i) with
           | Some m => m h
           | None => h
           end)
        h (seq 0 n).

End chain.
Arguments Constructor : clear implicits.
Arguments Chain : clear implicits.
End alice.

(** ** package httpserver *)

Module HttpServer.

(** The errors the package makes or passes on. *)
Inductive error :=
| ErrUnsupportedNetwork (network : string)   (* line 636 *)
| ErrNetworkEmpty                            (* line 638 *)
| ErrAddressEmpty                            (* line 642 *)
| ErrCreate (cause : error)                  (* line 669, wraps with %w *)
| ErrListen (network address : string) (cause : error) (* lines 698-703 *)
| ErrServerClosed                            (* http.ErrServerClosed *)
| ErrCanceled                                (* context.Canceled *)
| ErrDeadlineExceeded                        (* context.DeadlineExceeded *)
| ErrOther (what : string).                  (* any other error from outside *)

(** [err != http.ErrServerClosed] (line 716) compares with the one value. *)
Definition is_ErrServerClosed (e : error) : bool :=
  match e with
  | ErrServerClosed => true
  | _ => false
  end.

Record Config := mkConfig { Address : string }.

Record serverConfig := mkServerConfig { network : string; address : string }.

(** [Option] has the unexported method [apply], so its values are the two
    kinds this package makes: the closure [WithServerAddress] returns and a
    [serverOptions] slice. *)
#[local] Set Warnings "-register-all".
Inductive Option :=
| WithServerAddress (network address : string)
| serverOptions (options : list Option).

(** lines 633-649, the closure of [WithServerAddress network address]. *)
Definition applyAddress (network address : string) (c : serverConfig)
  : serverConfig * option error :=
  if bool_decide (network = "udp") || bool_decide (network = "unixgram")
  then (c, Some (ErrUnsupportedNetwork network))
  else if bool_decide (network = "") then (c, Some ErrNetworkEmpty)
  else if bool_decide (address = "") then (c, Some ErrAddressEmpty)
  else ({| network := network; address := address |}, None).

(** [apply]: lines 608-610 for the closure, lines 614-622 for the slice.
    The configuration is changed in place, so what earlier options of a
    slice wrote stays when a later one fails. *)
Fixpoint apply (o : Option) (c : serverConfig) : serverConfig * option error :=
  match o with
  | WithServerAddress network address => applyAddress network address c
  | serverOptions options =>
      (fix loop (os : list Option) (c : serverConfig) :=
         match os with
         | [] => (c, None)
         | o :: rest =>
             match apply o c with
             | (c', Some err) => (c', Some err)
             | (c', None) => loop rest c'
             end
         end) options c
  end.

(** lines 652-658. *)
Definition WithConfig (c : Config) : Option :=
  serverOptions [WithServerAddress "tcp" (Address c)].

(** lines 662-671 of [New]: the defaults, then every option in turn; the
    first error ends construction. *)
Fixpoint applyAll (options : list Option) (cfg : serverConfig)
  : serverConfig * option error :=
  match options with
  | [] => (cfg, None)
  | o :: rest =>
      match apply o cfg with
      | (cfg', Some err) => (cfg', Some (ErrCreate err))
      | (cfg', None) => applyAll rest cfg'
      end
  end.

Definition defaultConfig : serverConfig :=
  {| network := "tcp"; address := "127.0.0.1:0" |}.

(** An address option that validation refuses. *)
Definition refused (network address : string) : Prop :=
  network = "" ∨ network = "udp" ∨ network = "unixgram" ∨ address = "".

(** [o] is, or has somewhere inside a slice, the option
    [WithServerAddress network address]. *)
Fixpoint has_address (network address : string) (o : Option) : Prop :=
  match o with
  | WithServerAddress n a => n = network ∧ a = address
  | serverOptions options =>
      (fix any (os : list Option) : Prop :=
         match os with
         | [] => False
         | o :: rest => has_address network address o ∨ any rest
         end) options
  end.

(** The address options an option holds, in the order [apply] comes to
    them. *)
Fixpoint addresses (o : Option) : list (string * string) :=
  match o with
  | WithServerAddress n a => [(n, a)]
  | serverOptions options =>
      (fix all (os : list Option) : list (string * string) :=
         match os with
         | [] => []
         | o :: rest => addresses o ++ all rest
         end) options
  end.

Definition allAddresses (options : list Option) : list (string * string) :=
  concat (addresses <$> options).

(** The closures of a list of address options, one after the other until
    one fails. *)
Fixpoint applyAddresses (l : list (string * string)) (c : serverConfig)
  : serverConfig * option error :=
  match l with
  | [] => (c, None)
  | (n, a) :: rest =>
      match applyAddress n a c with
      | (c', Some err) => (c', Some err)
      | (c', None) => applyAddresses rest c'
      end
  end.

(** [net.Listener], with what [Addr()] answers. *)
Record Listener := mkListener { Addr : string }.

(** What an [atomic.Value] can hold: the empty interface. *)
Inductive Value := VListener (l : Listener) | VOther.

Section server.

(** [http.Handler], a non-nil one.  What the handlers of the libraries do
    is not this package's: [muxServe] is the [*http.ServeMux] seen as a
    handler, [h2cNewHandler next] is [h2c.NewHandler(next, &http2.Server{})]
    and [GzipHandler] is [gziphandler.GzipHandler]. *)
Context {Handler : Type}.
Variable muxServe : gmap string Handler -> Handler.
Variable h2cNewHandler : Handler -> Handler.
Variable GzipHandler : Handler -> Handler.

(** [TwirpServer] (lines 766-769): a handler that knows its path prefix. *)
Record TwirpServer := mkTwirpServer {
  PathPrefix : string;
  asHandler : Handler
}.

(** [reflection.NewServer()] seen as a [TwirpServer]. *)
Variable reflectionServer : TwirpServer.

(** [type Server struct] (lines 624-630).  [mux] is the route table of the
    [*http.ServeMux]; [reflection] is the [*reflection.Server], of which
    the package only uses [RegisterService]: it is kept as the services
    handed to it so far, oldest first. *)
Record Server := mkServer {
  chain : alice.Chain Handler;
  listener : option Value;
  mux : gmap string Handler;
  reflection : list TwirpServer;
  config : serverConfig
}.

(** [ServeMux.Handle] of net/http: it panics on an empty pattern
    and on a pattern that is registered already, and adds the entry
    otherwise. *)
Definition muxHandle (pattern : string) (handler : Handler)
    (m : gmap string Handler) : outcome (gmap string Handler) :=
  if bool_decide (pattern = "") then Panics
  else match m !! pattern with
       | Some _ => Panics
       | None => Returns (<[pattern := handler]> m)
       end.

(** [Handle] (lines 691-693). *)
Definition Handle (pattern : string) (handler : Handler) (s : Server)
  : outcome Server :=
  outcome_bind (muxHandle pattern handler (mux s)) (fun m =>
  Returns {| chain := chain s; listener := listener s; mux := m;
             reflection := reflection s; config := config s |}).

(** [RegisterService] (lines 772-775). *)
Definition RegisterService (t : TwirpServer) (s : Server) : outcome Server :=
  outcome_bind (muxHandle (PathPrefix t) (asHandler t) (mux s)) (fun m =>
  Returns {| chain := chain s; listener := listener s; mux := m;
             reflection := reflection s ++ [t]; config := config s |}).

(** [AddMiddleware] (lines 739-741). *)
Definition AddMiddleware (middleware : Handler -> Handler) (s : Server)
  : Server :=
  {| chain := alice.Append (chain s) middleware; listener := listener s;
     mux := mux s; reflection := reflection s; config := config s |}.

(** [New] (lines 661-688): the server and the error it returns. *)
Definition New (options : list Option)
  : outcome (option Server * option error) :=
  match applyAll options defaultConfig with
  | (_, Some err) => Returns (None, Some err)
  | (cfg, None) =>
      let s := {| chain := alice.New []; listener := None; mux := ∅;
                  reflection := []; config := cfg |} in
      outcome_bind (RegisterService reflectionServer s) (fun s =>
      let s := AddMiddleware h2cNewHandler s in
      let s := AddMiddleware GzipHandler s in
      Returns (Some s, None))
  end.

(** [Config.Build] (lines 593-595). *)
Definition Build (c : Config) : outcome (option Server * option error) :=
  New [WithConfig c].

(** The [http.Server] that [Run] makes (lines 708-710): its handler is
    [s.chain.Then(s.mux)]. *)
Record httpServer := mkHttpServer { srvHandler : Handler }.

Definition httpServerOf (s : Server) : httpServer :=
  {| srvHandler := alice.Then (chain s) (muxServe (mux s)) |}.

(** What happens outside while [Run] runs: what [net.Listen] answers for a
    network and an address (a listener or an error), what
    [svr.Serve(listener)] returns in the end,
    what [svr.Shutdown(shutdownCtx)] returns, and which of the two tasks of
    the group finishes first. *)
Record runEnv := mkRunEnv {
  listen : string -> string -> Listener + error;
  serve : httpServer -> Listener -> option error;
  shutdown : httpServer -> option error;
  serveFirst : bool
}.

(** The serve task (lines 714-722). *)
Definition serveTask (env : runEnv) (svr : httpServer)
    (l : Listener) : option error :=
  match serve env svr l with
  | Some err => if is_ErrServerClosed err then None else Some err
  | None => None
  end.

(** The shutdown-watcher task (lines 724-733), once [ctx.Done()] lets it
    go on: [_ = svr.Shutdown(shutdownCtx)], then [return nil]. *)
Definition watcherTask (env : runEnv) (svr : httpServer) : option error :=
  let _ := shutdown env svr in None.

(** [eg.Wait()] of errgroup: the first non-nil error a task returned, in
    the order the tasks finished. *)
Fixpoint egWait (finished : list (option error)) : option error :=
  match finished with
  | [] => None
  | Some err :: _ => Some err
  | None :: rest => egWait rest
  end.

(** [Run] (lines 695-736): the server afterwards and the error. *)
Definition Run (s : Server) (env : runEnv) : Server * option error :=
  match listen env (network (config s)) (address (config s)) with
  | inr err =>
      (s, Some (ErrListen (network (config s)) (address (config s)) err))
  | inl l =>
      let s' := {| chain := chain s; listener := Some (VListener l);
                   mux := mux s; reflection := reflection s;
                   config := config s |} in
      let svr := httpServerOf s in
      let a := serveTask env svr l in
      let b := watcherTask env svr in
      (s', egWait (if serveFirst env then [a; b] else [b; a]))
  end.

(** *** [WaitForAddress] (lines 745-764)

    What the waiting goroutine sees: whether [ctx] is done (and then what
    [ctx.Err()] answers), whether a tick waits in [t.C], and what the
    listener slot holds. *)
Record waiter := mkWaiter {
  ctxErr : option error;
  tickC : bool;
  slot : option Value
}.

(** What can happen while it waits.  [Fire]: the ticker of line 747 sends
    a tick, every 100 ms; the channel keeps one tick and drops the others.
    [Cancel err]: [ctx] is done, and [ctx.Err()] is [err] from then on.
    [Store l]: a [Run] gets to line 706.  [Select preferTick]: the goroutine
    comes to its [select]; when both cases are ready the runtime picks one,
    the tick when [preferTick]. *)
Inductive event :=
| Fire
| Cancel (err : error)
| Store (l : Listener)
| Select (preferTick : bool).




Definition envStep (w : waiter) (e : event) : waiter :=
  match e with
  | Fire => {| ctxErr := ctxErr w; tickC := true; slot := slot w |}
  | Cancel err =>
      {| ctxErr := Some (default err (ctxErr w)); tickC := tickC w;
         slot := slot w |}
  | Store l =>
      {| ctxErr := ctxErr w; tickC := tickC w; slot := Some (VListener l) |}
  | Select _ => w
  end.

(** lines 755-761, after a tick was received: an address, or round again. *)
Definition onTick (raw : option Value)
  : option (option string * option error) :=
  match raw with
  | Some (VListener l) => Some (Some (Addr l), None)
  | Some VOther => None
  | None => None
  end.

(** lines 751-762, one [select]: the waiter afterwards, and what is
    returned if the function returns here.  With no case ready it blocks,
    which leaves everything as it is. *)
Definition selectOnce (w : waiter) (preferTick : bool)
  : waiter * option (option string * option error) :=
  let takeTick :=
    ({| ctxErr := ctxErr w; tickC := false; slot := slot w |},
     onTick (slot w)) in
  match ctxErr w, tickC w with
  | Some err, false => (w, Some (None, Some err))
  | Some err, true =>
      if preferTick then takeTick else (w, Some (None, Some err))
  | None, true => takeTick
  | None, false => (w, None)
  end.

(** The [for] loop over what happens; [None] while it has not returned. *)
Fixpoint waitLoop (evs : list event) (w : waiter)
  : option (option string * option error) :=
  match evs with
  | [] => None
  | Select preferTick :: rest =>
      match selectOnce w preferTick with
      | (_, Some r) => Some r
      | (w', None) => waitLoop rest w'
      end
  | e :: rest => waitLoop rest (envStep w e)
  end.

(** [ctx] is what [ctx.Err()] answers when the call begins: [None] while
    the context is live.  The new ticker has sent nothing yet. *)
Definition WaitForAddress (s : Server) (ctx : option error)
    (evs : list event) : option (option string * option error) :=
  waitLoop evs {| ctxErr := ctx; tickC := false; slot := listener s |}.

(** Every service the reflection server was told of is in the route
    table, at its path prefix. *)
Definition consistent (s : Server) : Prop :=
  ∀ t, t ∈ reflection s -> mux s !! PathPrefix t = Some (asHandler t).

(** [middlewares] added one after the other, the first one first. *)
Definition addAll (middlewares : list (Handler -> Handler)) (s : Server)
  : Server :=
  foldl (fun s m => AddMiddleware m s) s middlewares.

(** What a waiter goes through while nothing is published and nobody
    cancels: ticks, and its own turns at the [select]. *)
Definition quiet (e : event) : bool :=
  match e with
  | Fire | Select _ => true
  | Cancel _ | Store _ => false
  end.

(** The servers one gets from the server [s0] by calls of its methods that
    return. *)
Inductive after (s0 : Server) : Server -> Prop :=
| after_here : after s0 s0
| after_Handle pattern handler s s' :
    after s0 s -> Handle pattern handler s = Returns s' -> after s0 s'
| after_RegisterService t s s' :
    after s0 s -> RegisterService t s = Returns s' -> after s0 s'
| after_AddMiddleware middleware s :
    after s0 s -> after s0 (AddMiddleware middleware s)
| after_Run env s :
    after s0 s -> after s0 (Run s env).1.

(** The servers one gets from [New] by calls of the methods that
    return. *)
Inductive reachable : Server -> Prop :=
| reach_New options s :
    New options = Returns (Some s, None) -> reachable s
| reach_Handle pattern handler s s' :
    reachable s -> Handle pattern handler s = Returns s' -> reachable s'
| reach_RegisterService t s s' :
    reachable s -> RegisterService t s = Returns s' -> reachable s'
| reach_AddMiddleware middleware s :
    reachable s -> reachable (AddMiddleware middleware s)
| reach_Run env s :
    reachable s -> reachable (Run s env).1.

End server.

End HttpServer.

(** ** package metadata ([internal/metadata/metadata.go]) *)

Module Metadata.

Module Config.
(** [type Config struct] (lines 10-13). *)
Record t := mk { Service : string; Version : string }.
End Config.

(** [globalMetadata] (lines 15-21).  Every function of the package takes
    the mutex at its first line and gives it back when it returns, so the
    calls happen one after the other and the state is the configuration. *)
Definition globalMetadata : Type := Config.t.

(** [Reset] (lines 24-29). *)
Definition Reset (g : globalMetadata) : globalMetadata :=
  Config.mk "" "".

(** [FromConfig] (lines 31-36). *)
Definition FromConfig (config : Config.t) (g : globalMetadata)
  : globalMetadata :=
  config.

(** [Service] (lines 38-43). *)
Definition Service (g : globalMetadata) : globalMetadata * string :=
  (g, Config.Service g).

(** [Version] (lines 45-61).  [build] is what [debug.ReadBuildInfo()]
    answers: [None] when it is not ok, [info.Main.Version] otherwise. *)
Definition Version (build : option string) (g : globalMetadata)
  : globalMetadata * string :=
  if bool_decide (Config.Version g ≠ "") then (g, Config.Version g)
  else match build with
       | None => (g, "")
       | Some v => (Config.mk (Config.Service g) v, v)
       end.

(** [Version] called again and again, each time with what the build
    information then is: the state in the end and what the calls
    returned. *)
Fixpoint Versions (builds : list (option string)) (g : globalMetadata)
  : globalMetadata * list string :=
  match builds with
  | [] => (g, [])
  | build :: rest =>
      let '(g', v) := Version build g in
      let '(g'', vs) := Versions rest g' in
      (g'', v :: vs)
  end.

End Metadata.

(** ** package stackdriver (lines 208-568) *)

Module Stackdriver.

Definition HTTPRequestField : string := "httpRequest".     (* line 255 *)
Definition contextKey : string := "context".               (* line 321 *)
Definition serviceContextKey : string := "serviceContext". (* line 380 *)
Definition sourceKey : string :=                           (* line 513 *)
  "logging.googleapis.com/sourceLocation".

(** [zapcore.Level], an [int8]: Debug is -1, Info 0, Warn 1, Error 2,
    DPanic 3, Panic 4 and Fatal 5. *)
Definition DebugLevel : Z := -1.
Definition InfoLevel : Z := 0.
Definition WarnLevel : Z := 1.
Definition ErrorLevel : Z := 2.
Definition DPanicLevel : Z := 3.
Definition PanicLevel : Z := 4.
Definition FatalLevel : Z := 5.

(** [l.Enabled(lvl)] of zapcore: [lvl >= l]. *)
Definition LevelEnabled (l lvl : Z) : bool := bool_decide (l ≤ lvl)%Z.

(** [logLevelSeverity] (lines 237-245). *)
Definition logLevelSeverity : gmap Z string :=
  list_to_map [(DebugLevel, "DEBUG"); (InfoLevel, "INFO");
               (WarnLevel, "WARNING"); (ErrorLevel, "ERROR");
               (DPanicLevel, "CRITICAL"); (PanicLevel, "ALERT");
               (FatalLevel, "EMERGENCY")].

(** [encodeLevel] (lines 247-249); the array encoder is the list of what
    was appended to it.  A key that is not in a Go map reads as the zero
    value. *)
Definition encodeLevel (l : Z) (enc : list string) : list string :=
  enc ++ [default "" (logLevelSeverity !! l)].

(** What an object encoder was given: keys with a string or an int. *)
Inductive encoded := EncString (s : string) | EncInt (n : Z).

(** [type HTTPRequest struct] (lines 261-273). *)
Record HTTPRequest := mkHTTPRequest {
  RequestMethod : string;
  RequestURL : string;
  RequestSize : string;
  Latency : string;
  ResponseSize : string;
  UserAgent : string;
  RemoteIP : string;
  ServerIP : string;
  Referer : string;
  Protocol : string;
  Status : Z
}.

(** [if s != "" { enc.AddString(key, s) }]. *)
Definition addNonEmpty (key s : string) (enc : list (string * encoded))
  : list (string * encoded) :=
  if bool_decide (s ≠ "") then enc ++ [(key, EncString s)] else enc.

(** [HTTPRequest.MarshalLogObject] (lines 275-319): the encoder afterwards
    and the error, which is always nil. *)
Definition HTTPRequest_MarshalLogObject (req : HTTPRequest)
    (enc : list (string * encoded)) : list (string * encoded) * option string :=
  let enc := addNonEmpty "requestMethod" (RequestMethod req) enc in
  let enc := enc ++ [("requestUrl", EncString (RequestURL req))] in
  let enc := enc ++ [("requestSize", EncString (RequestSize req))] in
  let enc := if bool_decide (Status req = 0%Z)
             then enc ++ [("status", EncInt (Status req))] else enc in
  let enc := enc ++ [("responseSize", EncString (ResponseSize req))] in
  let enc := addNonEmpty "userAgent" (UserAgent req) enc in
  let enc := addNonEmpty "remoteIp" (RemoteIP req) enc in
  let enc := addNonEmpty "serverIp" (ServerIP req) enc in
  let enc := addNonEmpty "protocol" (Protocol req) enc in
  let enc := addNonEmpty "referer" (Referer req) enc in
  let enc := addNonEmpty "latency" (Latency req) enc in
  (enc, None).

(** [type reportLocation struct] (lines 335-339). *)
Record reportLocation := mkReportLocation {
  loc_File : string;
  loc_Line : string;
  loc_Function : string
}.

(** [type reportContext struct] (lines 349-351). *)
Record reportContext := mkReportContext { ReportLocation : reportLocation }.

(** [type serviceContext struct] (lines 393-396). *)
Record serviceContext := mkServiceContext { Name : string; Version : string }.

(** [type source struct] (lines 524-540). *)
Record source := mkSource {
  File : string;
  Line : string;
  Function : string
}.

(** What [zap.Object(key, m)] keeps as the field's [Interface]: the pointers
    this package hands over, nil or not, and anything else a field of the
    caller may hold. *)
Inductive marshaler :=
| MService (sc : option serviceContext)
| MReport (rc : option reportContext)
| MSource (src : option source)
| MHTTP (req : option HTTPRequest)
| MOther (what : string).

(** [zap.Field], as far as the package looks at it. *)
Record Field := mkField { Key : string; Interface : marshaler }.

(** [zapcore.EntryCaller] and [zapcore.Entry]. *)
Record EntryCaller := mkCaller {
  Defined : bool;
  PC : Z;
  caller_File : string;
  caller_Line : Z
}.

Record Entry := mkEntry { Level : Z; Message : string; Caller : EntryCaller }.

(** [HTTP] (lines 257-259). *)
Definition HTTP (req : option HTTPRequest) : Field :=
  {| Key := HTTPRequestField; Interface := MHTTP req |}.

(** [newServiceContext] (lines 405-410) and [ServiceContext] (lines
    387-389). *)
Definition newServiceContext (name version : string) : serviceContext :=
  {| Name := name; Version := version |}.

Definition ServiceContext (name version : string) : Field :=
  {| Key := serviceContextKey;
     Interface := MService (Some (newServiceContext name version)) |}.

(** The loop that opens [withServiceContext], [withErrorReport] and
    [withSourceLocation]: is there a field with this key. *)
Definition hasKey (key : string) (fields : list Field) : bool :=
  existsb (fun f => bool_decide (Key f = key)) fields.

Section core.

(** [runtime.FuncForPC(pc)]: the name of the function, or nothing. *)
Variable FuncForPC : Z -> option string.

(** [newReportContext] (lines 359-378); [strconv.Itoa] writes the line in
    decimal. *)
Definition newReportContext (pc : Z) (file : string) (line : Z) (ok : bool)
  : option reportContext :=
  if negb ok then None
  else Some {| ReportLocation :=
                 {| loc_File := file; loc_Line := pretty line;
                    loc_Function := default "" (FuncForPC pc) |} |}.

(** [ErrorReport] (lines 327-333). *)
Definition ErrorReport (pc : Z) (file : string) (line : Z) (ok : bool)
  : list Field :=
  [{| Key := contextKey;
      Interface := MReport (newReportContext pc file line ok) |}].

(** [newSource] (lines 551-568). *)
Definition newSource (pc : Z) (file : string) (line : Z) (ok : bool)
  : option source :=
  if negb ok then None
  else Some {| File := file; Line := pretty line;
               Function := default "" (FuncForPC pc) |}.

(** [SourceLocation] (lines 518-520). *)
Definition SourceLocation (pc : Z) (file : string) (line : Z) (ok : bool)
  : Field :=
  {| Key := sourceKey; Interface := MSource (newSource pc file line ok) |}.

(** The [zapcore.Core] that is wrapped, [C], with the three methods of it
    that matter here; [W] is where it writes to. *)
Context {C W Err : Type}.
Variable coreWith : C -> list Field -> C.
Variable coreEnabled : C -> Z -> bool.
Variable coreWrite : W -> C -> Entry -> list Field -> W * option Err.

(** [type Core struct] (lines 412-415); [service] is never nil, see
    [WrapCore]. *)
Record Core := mkCore { core : C; service : serviceContext }.

(** [WrapCore] (lines 417-432). *)
Definition WrapCore (core : C) (serviceName serviceVersion : string) : Core :=
  let serviceName :=
    if bool_decide (serviceName = "") then "unknown" else serviceName in
  let serviceVersion :=
    if bool_decide (serviceVersion = "") then "unknown" else serviceVersion in
  {| core := core; service := newServiceContext serviceName serviceVersion |}.

(** [Core.With] (lines 434-443). *)
Definition With (c : Core) (fields : list Field) : Core :=
  {| core := coreWith (core c) fields; service := service c |}.

(** [Core.Enabled] (lines 453-455). *)
Definition Enabled (c : Core) (l : Z) : bool := coreEnabled (core c) l.

(** [withServiceContext] (lines 472-481). *)
Definition withServiceContext (c : Core) (fields : list Field) : list Field :=
  if hasKey serviceContextKey fields then fields
  else fields ++ [{| Key := serviceContextKey;
                     Interface := MService (Some (service c)) |}].

(** [withErrorReport] (lines 483-496). *)
Definition withErrorReport (c : Core) (ent : Entry) (fields : list Field)
  : list Field :=
  if hasKey contextKey fields then fields
  else if negb (Defined (Caller ent)) then fields
  else fields ++ ErrorReport (PC (Caller ent)) (caller_File (Caller ent))
                   (caller_Line (Caller ent)) true.

(** [withSourceLocation] (lines 498-511). *)
Definition withSourceLocation (c : Core) (ent : Entry) (fields : list Field)
  : list Field :=
  if hasKey sourceKey fields then fields
  else if negb (Defined (Caller ent)) then fields
  else fields ++ [SourceLocation (PC (Caller ent)) (caller_File (Caller ent))
                    (caller_Line (Caller ent)) true].

(** The fields [Core.Write] hands to the wrapped core (lines 462-467). *)
Definition writeFields (c : Core) (ent : Entry) (fields : list Field)
  : list Field :=
  let fields := withServiceContext c fields in
  if LevelEnabled ErrorLevel (Level ent)
  then withErrorReport c ent (withSourceLocation c ent fields)
  else fields.

(** [Core.Write] (lines 461-470). *)
Definition Write (w : W) (c : Core) (ent : Entry) (fields : list Field)
  : W * option Err :=
  coreWrite w (core c) ent (writeFields c ent fields).

End core.

End Stackdriver.

(** ** package logging ([internal/logging/logging.go]) *)

Module Logging.

(** The keys of a [context.Context]: the package's own [ctxMarkerKey]
    (line 85), a pointer nobody else has, and the keys of others. *)
Inductive ctxKey := ctxMarkerKey | otherKey (id : nat).

Global Instance ctxKey_eq_dec : EqDecision ctxKey.
Proof. solve_decision. Defined.

Section logging.

(** [Logger] is a [zap.Logger] object, [Field] a [zapcore.Field], [W] where
    the loggers write to. *)
Context {Logger Field W : Type}.

(** The errors [Exit] can be handed.  [Wrapped] is an error that unwraps to
    its cause, as [fmt.Errorf] with [%w] makes; [ErrLogging] is a
    [*LoggingError] (lines 38-42) with its logger, message and error, which
    has no [Unwrap]; [Plain] is any error without a cause. *)
#[local] Set Warnings "-register-all".
Inductive error :=
| Plain (text : string)
| Wrapped (text : string) (cause : error)
| ErrLogging (logger : option Logger) (message : string) (err : option error).

(** [NewLoggingError] (lines 49-57). *)
Definition NewLoggingError (logger : option Logger) (message : string)
    (err : option error) : error :=
  ErrLogging logger message err.

(** [LoggingError.Error] (lines 44-46), [%s %v] of the message and the
    error, along with the text of the other errors. *)
Fixpoint errorText (e : error) : string :=
  match e with
  | Plain text => text
  | Wrapped text _ => text
  | ErrLogging _ message err =>
      String.append message
        (String.append " "
           match err with
           | Some e' => errorText e'
           | None => "<nil>"
           end)
  end.

(** [errors.As(err, &le)] for a [*LoggingError] target (line 67): the
    first one down the chain of [Unwrap], with its logger and message. *)
Fixpoint asLoggingError (e : error) : option (option Logger * string) :=
  match e with
  | Plain _ => None
  | Wrapped _ cause => asLoggingError cause
  | ErrLogging logger message _ => Some (logger, message)
  end.

(** [logger.Error(msg, zap.Error(err))] of zap, on a logger pointer that
    may be nil. *)
Variable loggerError : W -> option Logger -> string -> error -> outcome W.

(** What the loggers wrote, the global logger [zap.L()], and a record of
    the calls of [Error]: on which logger, with which message and error. *)
Record world := mkWorld {
  sink : W;
  global : option Logger;
  logged : list (option Logger * string * error)
}.

(** [Exit] (lines 62-75). *)
Definition Exit (w : world) (err : option error) : world * outcome Z :=
  match err with
  | None => (w, Returns 0%Z)
  | Some e =>
      let '(logger, message) :=
        match asLoggingError e with
        | Some le => le
        | None => (global w, "exit")
        end in
      let record := logged w ++ [(logger, message, e)] in
      match loggerError (sink w) logger message e with
      | Returns k =>
          ({| sink := k; global := global w; logged := record |},
           Returns 1%Z)
      | Panics =>
          ({| sink := sink w; global := global w; logged := record |}, Panics)
      end
  end.

(** An error under some layers of wrapping, the outermost first. *)
Definition wrapAll (texts : list string) (e : error) : error :=
  foldr Wrapped e texts.

(** A [context.Context]: the values given with [context.WithValue], the
    latest first.  What is kept under a key is a [*zap.Logger], nil or not,
    or something else. *)
Inductive ctxValue := VLogger (l : option Logger) | VOther (what : string).

Definition Context : Type := list (ctxKey * ctxValue).

(** [ctx.Value(key)]. *)
Definition Value (ctx : Context) (key : ctxKey) : option ctxValue :=
  snd <$> (snd <$> list_find (fun kv => kv.1 = key) ctx).

(** [context.WithValue(ctx, key, val)]. *)
Definition WithValue (ctx : Context) (key : ctxKey) (val : ctxValue)
  : Context :=
  (key, val) :: ctx.

(** [nullLogger] (line 86), and [l.With(fields...)] of zap. *)
Variable nullLogger : Logger.
Variable loggerWith : Logger -> list Field -> Logger.

(** [FromContext] (lines 101-108). *)
Definition FromContext (ctx : Context) : Logger :=
  match Value ctx ctxMarkerKey with
  | Some (VLogger (Some l)) => l
  | _ => nullLogger
  end.

(** [ToContext] (lines 110-115). *)
Definition ToContext (ctx : Context) (l : option Logger) : Context :=
  WithValue ctx ctxMarkerKey (VLogger (Some (default nullLogger l))).

(** [AddFields] (lines 90-99). *)
Definition AddFields (ctx : Context) (fields : list Field) : Context :=
  let l := match Value ctx ctxMarkerKey with
           | Some (VLogger (Some l)) => l
           | _ => nullLogger
           end in
  ToContext ctx (Some (loggerWith l fields)).

End logging.

End Logging.

(** ** package todo: the request handlers ([internal/todo/todo.go]) *)

Module Todo.

Definition listQuery : string :=                            (* line 36 *)
  "select id, created, title, description from tasks order by id".
Definition createQuery : string :=                          (* line 78 *)
  "insert into tasks (created, title, description) values (?, ?, ?)".
Definition getQuery : string :=                             (* line 105 *)
  "select id, created, title, description from tasks where id = ?".

(** The errors twirp makes for the handlers: [twirp.InternalErrorWith(err)]
    and [twirp.NotFound.Errorf] with its text. *)
Inductive twerr {Err : Type} :=
| InternalErrorWith (err : Err)
| NotFound (text : string).
Arguments twerr : clear implicits.

(** [pb.Task]; [Created] is the time [timestamppb.New] was given. *)
Record Task {Time : Type} := mkTask {
  Id : N;
  Created : Time;
  Title : string;
  Description : string
}.
Arguments Task : clear implicits.
Arguments mkTask {Time} _ _ _ _.

(** [uint64(id)] of an [int64]. *)
Definition uint64 (id : Z) : N := Z.to_N (id mod 2 ^ 64).

Section handlers.

Context {Stmt Err DB Time : Type}.

(** The zero [time.Time], which a NULL [created] scans to. *)
Variable zeroTime : Time.

(** What the handlers give their statements as arguments. *)
Inductive arg := ArgTime (t : Time) | ArgString (s : string) | ArgUint (n : N).

(** A row as [rows.Scan] reads it into [id], [created], [title] and
    [description] (lines 46-51): the [uint64] and the three nullable
    columns, [None] for NULL. *)
Record columns := mkColumns {
  col_id : N;
  col_created : option Time;
  col_title : option string;
  col_description : option string
}.

(** [*sql.Rows], as the handlers use it: for each row that [rows.Next]
    announces, what [rows.Scan] gives, the columns or an error.  After the
    last one [Next] says false, be it the end or an error of the
    iteration: the handlers do not ask [rows.Err()]. *)
Record Rows := mkRows { pending : list (columns + Err) }.

(** [sql.Result]: what [LastInsertId()] answers. *)
Record Result := mkResult { LastInsertId : Z * option Err }.

Variable prepare : DB -> string -> DB * (option Stmt * option Err).
Variable stmtClose : DB -> Stmt -> DB * option Err.
Variable stmtQuery
  : DB -> option Stmt -> list arg
    -> DB * outcome (option Rows * option Err).
Variable stmtExec
  : DB -> option Stmt -> list arg
    -> DB * outcome (option Result * option Err).

(** [rows.Close()]. *)
Variable rowsClose : DB -> Rows -> DB * option Err.

(** [type Server struct] (lines 14-17); the [db] is the preparer of the
    cache. *)
Record Server := mkServer { stmtCache : StmtCache.stmtCache (Stmt := Stmt) }.

(** The world of the cache, and a record of the rows that were closed. *)
Record world := mkWorld {
  base : StmtCache.world (Stmt := Stmt) (DB := DB);
  rowsClosed : list Rows
}.

(** [New] (lines 21-28). *)
Definition New : option Server * option Err :=
  (Some {| stmtCache := StmtCache.newStmtCache |}, None).

(** [Close] (lines 30-32). *)
Definition Close (order : list string) (s : Server) (w : world)
  : Server * world :=
  let '(c, bw) := StmtCache.Close stmtClose order (stmtCache s) (base w) in
  ({| stmtCache := c |}, {| base := bw; rowsClosed := rowsClosed w |}).

(** [defer rows.Close()] (lines 42 and 112), when the handler returns. *)
Definition closeRows (rows : Rows) (w : world) : world :=
  let '(d, _) := rowsClose (StmtCache.db (base w)) rows in
  {| base := StmtCache.with_db d (base w);
     rowsClosed := rowsClosed w ++ [rows] |}.

(** lines 58-63 and 127-132: the task of a row; NULLs are the zero values. *)
Definition toTask (c : columns) : Task Time :=
  {| Id := col_id c;
     Created := default zeroTime (col_created c);
     Title := default "" (col_title c);
     Description := default "" (col_description c) |}.

(** The loop of [ListTasks] (lines 46-66), with the tasks so far. *)
Fixpoint scanAll (pending : list (columns + Err)) (tasks : list (Task Time))
  : list (Task Time) + Err :=
  match pending with
  | [] => inl tasks
  | inl c :: rest => scanAll rest (tasks ++ [toTask c])
  | inr err :: _ => inr err
  end.

(** [ListTasks] (lines 34-71): the response's tasks and the error. *)
Definition ListTasks (s : Server) (w : world)
  : Server * world * outcome (option (list (Task Time)) * option (twerr Err)) :=
  let '(c, bw, r) :=
    StmtCache.QueryContext prepare stmtQuery (stmtCache s) (base w)
      listQuery [] in
  let s' := {| stmtCache := c |} in
  let w' := {| base := bw; rowsClosed := rowsClosed w |} in
  match r with
  | Panics => (s', w', Panics)
  | Returns (_, Some err) =>
      (s', w', Returns (None, Some (InternalErrorWith err)))
  | Returns (None, None) => (s', w', Panics)
  | Returns (Some rows, None) =>
      (s', closeRows rows w',
       match scanAll (pending rows) [] with
       | inr err => Returns (None, Some (InternalErrorWith err))
       | inl tasks => Returns (Some tasks, None)
       end)
  end.

(** [CreateTask] (lines 73-101); [now] is what [time.Now()] answers. *)
Definition CreateTask (s : Server) (w : world) (title description : string)
    (now : Time)
  : Server * world * outcome (option (Task Time) * option (twerr Err)) :=
  let '(c, bw, r) :=
    StmtCache.ExecContext prepare stmtExec (stmtCache s) (base w)
      createQuery [ArgTime now; ArgString title; ArgString description] in
  let s' := {| stmtCache := c |} in
  let w' := {| base := bw; rowsClosed := rowsClosed w |} in
  match r with
  | Panics => (s', w', Panics)
  | Returns (_, Some err) =>
      (s', w', Returns (None, Some (InternalErrorWith err)))
  | Returns (None, None) => (s', w', Panics)
  | Returns (Some res, None) =>
      let '(id, _) := LastInsertId res in
      (s', w',
       Returns (Some {| Id := uint64 id; Created := now; Title := title;
                        Description := description |}, None))
  end.

(** [GetTask] (lines 103-139). *)
Definition GetTask (s : Server) (w : world) (id : N)
  : Server * world * outcome (option (Task Time) * option (twerr Err)) :=
  let '(c, bw, r) :=
    StmtCache.QueryContext prepare stmtQuery (stmtCache s) (base w)
      getQuery [ArgUint id] in
  let s' := {| stmtCache := c |} in
  let w' := {| base := bw; rowsClosed := rowsClosed w |} in
  match r with
  | Panics => (s', w', Panics)
  | Returns (_, Some err) =>
      (s', w', Returns (None, Some (InternalErrorWith err)))
  | Returns (None, None) => (s', w', Panics)
  | Returns (Some rows, None) =>
      (s', closeRows rows w',
       match pending rows with
       | [] =>
           Returns (None,
                    Some (NotFound
                            (String.append "task "
                               (String.append (pretty id) " not found"))))
       | inr err :: _ => Returns (None, Some (InternalErrorWith err))
       | inl c :: _ => Returns (Some (toTask c), None)
       end)
  end.

(** The requests a client can make. *)
Inductive request :=
| ReqList
| ReqCreate (title description : string) (now : Time)
| ReqGet (id : N).

Definition serve (sw : Server * world) (r : request) : Server * world :=
  match r with
  | ReqList => (ListTasks sw.1 sw.2).1
  | ReqCreate title description now =>
      (CreateTask sw.1 sw.2 title description now).1
  | ReqGet id => (GetTask sw.1 sw.2 id).1
  end.

Definition serveAll (rs : list request) (sw : Server * world)
  : Server * world :=
  foldl serve sw rs.

End handlers.

End Todo.

(** ** Concrete collaborators, to run the definitions on *)

Module Scenario.

(** A preparer in the manner of [sql.DB]: every call that succeeds makes a
    new statement (statement [n] is the [n]-th one made), and one query is
    refused. *)
Definition numbering (d : nat) (query : string)
  : nat * (option nat * option string) :=
  if bool_decide (query = "select nonsense")
  then (d, (None, Some "syntax error"))
  else (S d, (Some d, None)).

(** Statements whose [Close] always fails. *)
Definition closeFails (d : nat) (s : nat) : nat * option string :=
  (d, Some "close failed").

Definition runQuery (d : nat) (stmt : option nat) (args : list string)
  : nat * outcome (option (list string) * option string) :=
  match stmt with
  | Some _ => (d, Returns (Some args, None))
  | None => (d, Panics)
  end.

Definition runExec (d : nat) (stmt : option nat) (args : list string)
  : nat * outcome (option nat * option string) :=
  match stmt with
  | Some n => (d, Returns (Some n, None))
  | None => (d, Panics)
  end.

Definition emptyWorld : StmtCache.world (Stmt := nat) (DB := nat) :=
  StmtCache.mkWorld 0 [] [].

Definition emptyCache : StmtCache.stmtCache (Stmt := nat) :=
  StmtCache.newStmtCache.

(** A cache with two statements and a nil entry. *)
Definition threeEntries : StmtCache.stmtCache (Stmt := nat) :=
  StmtCache.mkCache StmtCache.unlocked
    (<["a" := Some 1]> (<["b" := None]> (<["c" := Some 3]> ∅))).

(** Two goroutines in [PrepareContext] for the same query; each reads the
    map (lines 44-48) before either takes the lock (lines 52-59). *)
Definition twoCallers
  : StmtCache.state (Stmt := nat) (Err := string) (DB := nat) :=
  StmtCache.mkState StmtCache.newStmtCache emptyWorld
    [StmtCache.PStart "select 1"; StmtCache.PStart "select 1"].

Definition bothReadFirst : list nat :=
  [0; 0; 0; 0;  1; 1; 1; 1;  0; 0; 0; 0;  1; 1; 1; 1].

(** Handlers that answer with the list of what happened, in order. *)
Definition Handler : Type := string -> list string.

Definition notFound : Handler := fun _ => ["404"].

(** The mux as a handler, by the exact path only. *)
Definition muxServe (m : gmap string Handler) : Handler :=
  fun path => default notFound (m !! path) path.

(** A middleware that leaves a mark before and after the handler it wraps. *)
Definition marking (name : string) (next : Handler) : Handler :=
  fun path =>
    [String.append "before " name] ++ next path
      ++ [String.append "after " name].

Definition reflectionServer : HttpServer.TwirpServer (Handler := Handler) :=
  HttpServer.mkTwirpServer "/twirp/reflection/" (fun _ => ["reflection"]).

Definition New :=
  HttpServer.New (marking "h2c") (marking "gzip") reflectionServer.

(** The handler of some service, as the application registers it. *)
Definition todoHandler : Handler := fun _ => ["todo"].

Definition todoService : HttpServer.TwirpServer (Handler := Handler) :=
  HttpServer.mkTwirpServer "/twirp/bakins.todo.v1.TodoService/" todoHandler.

(** The server [New()] makes with no options. *)
Definition fresh : HttpServer.Server :=
  match New [] with
  | Returns (Some s, _) => s
  | _ => HttpServer.mkServer (alice.New []) None ∅ []
           HttpServer.defaultConfig
  end.

(** [a] comes before [b] in a list of events. *)
Definition precedes (a b : string) (events : list string) : bool :=
  match list_find (eq a) events, list_find (eq b) events with
  | Some (i, _), Some (j, _) => Nat.ltb i j
  | _, _ => false
  end.

(** M1 is added first, M2 second. *)
Definition twoAdded : HttpServer.Server :=
  HttpServer.AddMiddleware (marking "M2")
    (HttpServer.AddMiddleware (marking "M1") fresh).

(** A bind that fails, and a [Serve] that ends because of [Shutdown], which
    itself fails. *)
Definition portTaken : HttpServer.runEnv (Handler := Handler) :=
  HttpServer.mkRunEnv
    (fun _ _ => inr (HttpServer.ErrOther "address already in use"))
    (fun _ _ => Some HttpServer.ErrServerClosed)
    (fun _ => Some HttpServer.ErrDeadlineExceeded)
    true.

(** An address option for a packet network, and a configuration with no
    address inside the slice [WithConfig] makes. *)
Definition overUdp : list HttpServer.Option :=
  [HttpServer.WithServerAddress "udp" "127.0.0.1:53"].

Definition noAddress : list HttpServer.Option :=
  [HttpServer.WithServerAddress "tcp" "127.0.0.1:8080";
   HttpServer.WithConfig (HttpServer.mkConfig "")].

Definition graceful : HttpServer.runEnv (Handler := Handler) :=
  HttpServer.mkRunEnv
    (fun _ address => inl (HttpServer.mkListener address))
    (fun _ _ => Some HttpServer.ErrServerClosed)
    (fun _ => Some HttpServer.ErrDeadlineExceeded)
    false.

End Scenario.

(** * More cases

    What the properties beyond the claims are run on. *)

Module Cases.
Import Scenario.

(** Four goroutines in [PrepareContext] for the same query.  The first
    two read the map before the key is cached; the third and the fourth
    start their calls later. *)
Definition fourCallers
  : StmtCache.state (Stmt := nat) (Err := string) (DB := nat) :=
  StmtCache.mkState StmtCache.newStmtCache emptyWorld
    [StmtCache.PStart "select 1"; StmtCache.PStart "select 1";
     StmtCache.PStart "select 1"; StmtCache.PStart "select 1"].

(** The first two callers read the map (lines 44-48), then the first one
    prepares, stores and returns (lines 52-59). *)
Definition firstReturns : list nat := [0; 0; 0; 0;  1; 1; 1; 1;  0; 0; 0; 0].

(** A preparer that gives a nil statement and no error. *)
Definition nilStatement (d : nat) (query : string)
  : nat * (option nat * option string) :=
  (d, (None, None)).

(** Three address options, the second and the third refused. *)
Definition twoRefused : list HttpServer.Option :=
  [HttpServer.WithServerAddress "tcp" ":8080";
   HttpServer.WithServerAddress "udp" ":53";
   HttpServer.WithServerAddress "tcp" ""].

(** Two address options that are accepted, the second in the slice
    [WithConfig] makes. *)
Definition twoAccepted : list HttpServer.Option :=
  [HttpServer.WithServerAddress "unix" "/tmp/todo.sock";
   HttpServer.WithConfig (HttpServer.mkConfig ":9090")].

(** The server of [New] with the todo service registered. *)
Definition registered : HttpServer.Server :=
  match HttpServer.RegisterService todoService fresh with
  | Returns s => s
  | Panics => fresh
  end.

(** A core that wraps nothing, an entry at the error level with its
    caller, one at the info level, and the name every program counter
    has. *)
Definition todoCore : Stackdriver.Core (C := unit) :=
  Stackdriver.WrapCore tt "todo" "".

Definition errorEntry : Stackdriver.Entry :=
  Stackdriver.mkEntry Stackdriver.ErrorLevel "query failed"
    (Stackdriver.mkCaller true 4198 "todo.go" 40).

Definition infoEntry : Stackdriver.Entry :=
  Stackdriver.mkEntry Stackdriver.InfoLevel "listening"
    (Stackdriver.mkCaller true 4198 "app.go" 12).

Definition inMain (pc : Z) : option string := Some "main.main".

(** A wrapped core that keeps what it is handed. *)
Definition keepFields (w : list (list Stackdriver.Field)) (c : unit)
    (ent : Stackdriver.Entry) (fields : list Stackdriver.Field)
  : list (list Stackdriver.Field) * option string :=
  (w ++ [fields], None).

(** A table with two tasks, the second with NULLs; times are numbers. *)
Definition twoRows : Todo.Rows (Err := string) (Time := nat) :=
  Todo.mkRows
    [inl (Todo.mkColumns 1%N (Some 100) (Some "milk") (Some "two litres"));
     inl (Todo.mkColumns 2%N None (Some "bread") None)].

Definition tableQuery (d : nat) (stmt : option nat)
    (args : list (Todo.arg (Time := nat)))
  : nat * outcome (option Todo.Rows * option string) :=
  match stmt with
  | Some _ => (d, Returns (Some twoRows, None))
  | None => (d, Panics)
  end.

(** An insert whose driver knows no last id. *)
Definition insertExec (d : nat) (stmt : option nat)
    (args : list (Todo.arg (Time := nat)))
  : nat * outcome (option (Todo.Result (Err := string)) * option string) :=
  match stmt with
  | Some _ =>
      (d, Returns (Some (Todo.mkResult (-1, Some "no last insert id")%Z), None))
  | None => (d, Panics)
  end.

Definition rowsClosing (d : nat) (rows : Todo.Rows (Err := string) (Time := nat))
  : nat * option string :=
  (d, None).

(** A database that is down. *)
Definition down (d : nat) (query : string)
  : nat * (option nat * option string) :=
  (d, (None, Some "connection refused")).

Definition todoServer : Todo.Server (Stmt := nat) :=
  Todo.mkServer emptyCache.

Definition todoWorld
  : Todo.world (Stmt := nat) (Err := string) (DB := nat) (Time := nat) :=
  Todo.mkWorld emptyWorld [].

End Cases.

(** * Properties of the statement cache *)

Module StmtCacheFacts.
Import StmtCache.

Section facts.

Context {Stmt Err DB Args Rows Result : Type}.
Variable prepare : DB -> string -> DB * (option Stmt * option Err).
Variable stmtClose : DB -> Stmt -> DB * option Err.
Variable stmtQuery
  : DB -> option Stmt -> Args -> DB * outcome (option Rows * option Err).
Variable stmtExec
  : DB -> option Stmt -> Args -> DB * outcome (option Result * option Err).

Implicit Types (c : stmtCache (Stmt := Stmt)).
Implicit Types (w : world (Stmt := Stmt) (DB := DB)).
Implicit Types (st : state (Stmt := Stmt) (Err := Err) (DB := DB)).
Implicit Types (m : gmap string (option Stmt)) (query key : string).

Lemma call_prepare_log w query :
  prepared (call_prepare prepare w query).1 = prepared w ++ [query].
Proof.
  unfold call_prepare. by destruct (prepare (db w) query) as [d r].
Qed.


Lemma PrepareContext_hit c w query stmt :
  statements c !! query = Some stmt ->
  PrepareContext prepare c w query = (c, w, (stmt, None)).
Proof. intros Hc. unfold PrepareContext. by rewrite Hc. Qed.

Lemma PrepareContext_miss c w query :
  statements c !! query = None ->
  PrepareContext prepare c w query =
    (store query (call_prepare prepare w query).2.1
           (call_prepare prepare w query).2.2 c,
     (call_prepare prepare w query).1,
     (call_prepare prepare w query).2).
Proof.
  intros Hc. unfold PrepareContext. rewrite Hc.
  by destruct (call_prepare prepare w query) as [w' [stmt err]].
Qed.

Lemma store_other query stmt (err : option Err) c key :
  key ≠ query ->
  statements (store query stmt err c) !! key = statements c !! key.
Proof.
  intros Hne. destruct err as [e|]; simpl; [done|].
  by rewrite lookup_insert_ne.
Qed.

(** A cached entry survives [PrepareContext], whatever the key asked for. *)
Lemma PrepareContext_keeps c w query key stmt :
  statements c !! key = Some stmt ->
  statements (PrepareContext prepare c w query).1.1 !! key = Some stmt.
Proof.
  intros Hk. destruct (statements c !! query) as [cached|] eqn:Hq.
  - by rewrite (PrepareContext_hit _ _ _ _ Hq).
  - rewrite (PrepareContext_miss _ _ _ Hq). simpl.
    rewrite store_other; [done|]. intros ->. congruence.
Qed.

(** The preparer is not asked for a key that is cached. *)
Lemma PrepareContext_log c w query key :
  is_Some (statements c !! key) ->
  filter (eq key) (prepared (PrepareContext prepare c w query).1.2) =
  filter (eq key) (prepared w).
Proof.
  intros [stmt Hk]. destruct (statements c !! query) as [cached|] eqn:Hq.
  - by rewrite (PrepareContext_hit _ _ _ _ Hq).
  - rewrite (PrepareContext_miss _ _ _ Hq). simpl.
    rewrite call_prepare_log, filter_app.
    rewrite (filter_cons_False _ query); [by rewrite filter_nil, app_nil_r|].
    intros ->. congruence.
Qed.

Lemma QueryContext_cache c w query args :
  (QueryContext prepare stmtQuery c w query args).1.1 =
    (PrepareContext prepare c w query).1.1 ∧
  prepared (QueryContext prepare stmtQuery c w query args).1.2 =
    prepared (PrepareContext prepare c w query).1.2.
Proof.
  unfold QueryContext.
  destruct (PrepareContext prepare c w query) as [[c' w'] [stmt [e|]]];
    [done|].
  by destruct (stmtQuery (db w') stmt args) as [d r].
Qed.

Lemma ExecContext_cache c w query args :
  (ExecContext prepare stmtExec c w query args).1.1 =
    (PrepareContext prepare c w query).1.1 ∧
  prepared (ExecContext prepare stmtExec c w query args).1.2 =
    prepared (PrepareContext prepare c w query).1.2.
Proof.
  unfold ExecContext.
  destruct (PrepareContext prepare c w query) as [[c' w'] [stmt [e|]]];
    [done|].
  by destruct (stmtExec (db w') stmt args) as [d r].
Qed.

Lemma do_call_keeps (cw : stmtCache * world) (k : call (Args := Args))
    key stmt :
  statements cw.1 !! key = Some stmt ->
  statements (do_call prepare stmtQuery stmtExec cw k).1 !! key = Some stmt ∧
  filter (eq key) (prepared (do_call prepare stmtQuery stmtExec cw k).2) =
  filter (eq key) (prepared cw.2).
Proof.
  intros Hk. destruct k as [q|q args|q args]; simpl.
  - split; [by apply PrepareContext_keeps|].
    apply PrepareContext_log; eauto.
  - destruct (QueryContext_cache cw.1 cw.2 q args) as [-> ->].
    split; [by apply PrepareContext_keeps|].
    apply PrepareContext_log; eauto.
  - destruct (ExecContext_cache cw.1 cw.2 q args) as [-> ->].
    split; [by apply PrepareContext_keeps|].
    apply PrepareContext_log; eauto.
Qed.

Lemma do_calls_keeps ks (cw : stmtCache * world) key stmt :
  statements cw.1 !! key = Some stmt ->
  statements (do_calls prepare stmtQuery stmtExec ks cw).1 !! key = Some stmt ∧
  filter (eq key) (prepared (do_calls prepare stmtQuery stmtExec ks cw).2) =
  filter (eq key) (prepared cw.2).
Proof.
  revert cw. induction ks as [|k ks IH]; intros cw Hk; [done|].
  simpl. destruct (do_call_keeps cw k key stmt Hk) as [Hk' Hlog].
  destruct (IH _ Hk') as [H1 H2]. split; [done|]. by rewrite H2.
Qed.

(** C3. When the key is not cached and the preparer fails, [PrepareContext]
    returns what the preparer returned, error included, and leaves the
    cache as it was, so the key is still absent; the call after it for the
    same key asks the preparer again and returns that second answer. *)
Theorem PrepareContext_failure_not_cached c w query d stmt e :
  statements c !! query = None ->
  prepare (db w) query = (d, (stmt, Some e)) ->
  let first := PrepareContext prepare c w query in
  let second := PrepareContext prepare first.1.1 first.1.2 query in
  first.2 = (stmt, Some e) ∧
  first.1.1 = c ∧
  statements first.1.1 !! query = None ∧
  prepared first.1.2 = prepared w ++ [query] ∧
  prepared second.1.2 = prepared w ++ [query; query] ∧
  second.2 = (prepare d query).2.
Proof.
  intros Hc Hp first second.
  assert (Hfirst : first = (c, {| db := d; prepared := prepared w ++ [query];
                                  closed := closed w |}, (stmt, Some e))).
  { unfold first. rewrite (PrepareContext_miss _ _ _ Hc).
    unfold call_prepare. by rewrite Hp. }
  unfold second. rewrite Hfirst. simpl.
  repeat split; try done.
  - rewrite (PrepareContext_miss _ _ _ Hc). simpl.
    rewrite call_prepare_log. simpl. by rewrite <- app_assoc.
  - rewrite (PrepareContext_miss _ _ _ Hc). simpl.
    unfold call_prepare. simpl. by destruct (prepare d query).
Qed.

Lemma call_close_log w (s : Stmt) :
  prepared (call_close stmtClose w s) = prepared w ∧
  closed (call_close stmtClose w s) = closed w ++ [s].
Proof. unfold call_close. by destruct (stmtClose (db w) s) as [d r]. Qed.

Lemma held_delete m key (stmt : option Stmt) :
  m !! key = Some stmt ->
  held m ≡ₚ match stmt with
            | Some s => s :: held (delete key m)
            | None => held (delete key m)
            end.
Proof.
  intros Hk. unfold held.
  rewrite <- (map_to_list_delete m key stmt Hk). simpl. by destruct stmt.
Qed.

Lemma keys_delete m key (stmt : option Stmt) rest :
  m !! key = Some stmt ->
  key :: rest ≡ₚ (map_to_list m).*1 ->
  rest ≡ₚ (map_to_list (delete key m)).*1.
Proof.
  intros Hk Hp. rewrite <- (map_to_list_delete m key stmt Hk) in Hp.
  simpl in Hp. by apply Permutation_cons_inv in Hp.
Qed.

(** The loop of [Close], run over every key of the map, empties the map
    and closes each statement the map held, once. *)
Lemma range_close_all order m w :
  order ≡ₚ (map_to_list m).*1 ->
  (range_close stmtClose order m w).1 = ∅ ∧
  closed (range_close stmtClose order m w).2 ≡ₚ closed w ++ held m ∧
  prepared (range_close stmtClose order m w).2 = prepared w.
Proof.
  revert m w. induction order as [|key rest IH]; intros m w Hp.
  - symmetry in Hp. apply Permutation_nil_r in Hp.
    apply fmap_nil_inv in Hp. apply map_to_list_empty_iff in Hp as ->.
    simpl. unfold held. rewrite map_to_list_empty. simpl.
    by rewrite app_nil_r.
  - assert (Hin : key ∈ (map_to_list m).*1) by (rewrite <- Hp; left).
    apply list_elem_of_fmap in Hin as [[k stmt] [-> Hin]].
    apply elem_of_map_to_list in Hin. simpl in *.
    pose proof (keys_delete _ _ _ _ Hin Hp) as Hrest.
    pose proof (held_delete _ _ _ Hin) as Hheld.
    unfold range_body. rewrite Hin.
    destruct stmt as [s|].
    + destruct (IH (delete k m) (call_close stmtClose w s) Hrest)
        as (Hm & Hc & Hl).
      destruct (call_close_log w s) as [Hl' Hc'].
      split; [done|]. split; [|by rewrite Hl, Hl'].
      rewrite Hc, Hc', Hheld, <- app_assoc. done.
    + destruct (IH (delete k m) w Hrest) as (Hm & Hc & Hl).
      split; [done|]. split; [|done]. by rewrite Hc, Hheld.
Qed.

(** *** Goroutines *)

Implicit Types (ts : list (pc (Stmt := Stmt) (Err := Err))) (tid : nat).

Lemma run_app sched1 sched2 st :
  run prepare stmtClose (sched1 ++ sched2) st =
  run prepare stmtClose sched1 st ≫= run prepare stmtClose sched2.
Proof.
  revert st. induction sched1 as [|t sched1 IH]; intros st; simpl; [done|].
  destruct (step prepare stmtClose st t) as [st'|]; simpl; [apply IH|done].
Qed.

Lemma step_thread c w ts tid p c' w' p' :
  ts !! tid = Some p ->
  thread_step prepare stmtClose c w p = Some (c', w', p') ->
  step prepare stmtClose (mkState c w ts) tid =
    Some (mkState c' w' (<[tid := p']> ts)).
Proof. intros Ht Hs. unfold step. simpl. rewrite Ht. simpl. by rewrite Hs. Qed.

(** While the writer flag is up, nobody gets a lock. *)
Lemma writer_blocks c w p :
  writer (lock c) = true -> acquires p = true ->
  thread_step prepare stmtClose c w p = None.
Proof.
  intros Hw Hp. destruct p; try discriminate Hp; simpl;
    unfold RLock, Lock; by rewrite Hw.
Qed.

Lemma with_statements_id c : with_statements (statements c) c = c.
Proof. by destruct c. Qed.


(** [j] turns of the loop of [Close], by the goroutine alone. *)
Lemma run_loop (j : nat) keys c w ts tid :
  ts !! tid = Some (CLoop keys) -> (j ≤ length keys)%nat ->
  run prepare stmtClose (replicate j tid) (mkState c w ts) =
    Some (mkState
            (with_statements
               (range_close stmtClose (take j keys) (statements c) w).1 c)
            (range_close stmtClose (take j keys) (statements c) w).2
            (<[tid := CLoop (drop j keys)]> ts)).
Proof.
  revert keys c w ts. induction j as [|j IH]; intros keys c w ts Ht Hj.
  - simpl. rewrite drop_0, with_statements_id.
    by rewrite (list_insert_id _ _ _ Ht).
  - destruct keys as [|key rest]; [simpl in Hj; lia|].
    simpl in Hj. simpl.
    destruct (range_body stmtClose key (statements c) w) as [m w'] eqn:Hb.
    rewrite (step_thread c w ts tid (CLoop (key :: rest))
               (with_statements m c) w' (CLoop rest) Ht);
      [|simpl; by rewrite Hb].
    simpl.
    rewrite (IH rest);
      [|apply list_lookup_insert_eq; by eapply lookup_lt_Some|lia].
    simpl. by rewrite list_insert_insert_eq.
Qed.

(** The whole of [Close] by one goroutine while the others stand still is
    the [Close] above. *)
Lemma run_Close_alone order c w ts tid :
  ts !! tid = Some (CStart order) -> lock c = unlocked ->
  run prepare stmtClose (replicate (S (S (length order))) tid)
      (mkState c w ts) =
    Some (mkState (Close stmtClose order c w).1 (Close stmtClose order c w).2
                  (<[tid := CDone]> ts)).
Proof.
  intros Ht Hl.
  assert (Hlt : tid < length ts) by by eapply lookup_lt_Some.
  rewrite replicate_S, replicate_S_end. simpl.
  rewrite (step_thread c w ts tid (CStart order)
             (with_lock (mkRWMutex 0 true) c) w (CLoop order) Ht);
    [|simpl; by rewrite Hl].
  simpl. rewrite run_app.
  rewrite (run_loop (length order) order);
    [|by apply list_lookup_insert_eq|done].
  rewrite firstn_all, drop_all, list_insert_insert_eq. simpl.
  rewrite (step_thread _ _ _ tid (CLoop []) _ _ CDone
             (list_lookup_insert_eq _ _ _ Hlt) eq_refl).
  simpl. rewrite list_insert_insert_eq. unfold Close.
  destruct (range_close stmtClose order (statements c) w) as [m w'].
  simpl. destruct c as [l sts]. simpl in *. subst l. done.
Qed.

(** *** The lock discipline *)

Lemma count_insert (f : pc -> bool) ts tid p q :
  ts !! tid = Some p ->
  count f (<[tid := q]> ts) + (if f p then 1 else 0)
  = count f ts + (if f q then 1 else 0).
Proof.
  revert tid. induction ts as [|p' ts IH]; intros [|tid] Ht;
    try discriminate; simpl in *.
  - injection Ht as ->. lia.
  - specialize (IH tid Ht). lia.
Qed.

Lemma count_one (f : pc -> bool) ts tid p :
  ts !! tid = Some p -> ((if f p then 1 else 0) ≤ count f ts)%nat.
Proof.
  revert tid. induction ts as [|p' ts IH]; intros [|tid] Ht;
    try discriminate; simpl in *.
  - injection Ht as ->. lia.
  - specialize (IH tid Ht). lia.
Qed.

Lemma count_two (f : pc -> bool) ts i j p q :
  i ≠ j -> ts !! i = Some p -> ts !! j = Some q ->
  ((if f p then 1 else 0) + (if f q then 1 else 0) ≤ count f ts)%nat.
Proof.
  revert i j. induction ts as [|p' ts IH]; intros [|i] [|j] Hne Hi Hj;
    try discriminate; try done; simpl in *.
  - injection Hi as ->. pose proof (count_one f ts j q Hj). lia.
  - injection Hj as ->. pose proof (count_one f ts i p Hi). lia.
  - assert (Hne' : i ≠ j) by congruence. specialize (IH i j Hne' Hi Hj). lia.
Qed.

(** Every step keeps the lock and the goroutines in agreement. *)
Lemma step_well_locked st st0 tid :
  well_locked st -> step prepare stmtClose st tid = Some st0 ->
  well_locked st0.
Proof.
  destruct st as [[l m] w ts]. unfold well_locked, step. simpl.
  intros (Hr & Hw & Hrw).
  destruct (ts !! tid) as [p|] eqn:Ht; [|discriminate]. simpl.
  pose proof (fun q => count_insert reading ts tid p q Ht) as Cr.
  pose proof (fun q => count_insert writing ts tid p q Ht) as Cw.
  destruct l as [n wr].
  destruct p as [q|q|q s ok|q s ok|q|q|q s e|s e|s e|order|keys|];
    simpl in *; unfold RLock, Lock in *; simpl in *.
  - destruct wr; [discriminate|]. simpl. intros [= <-]. simpl.
    specialize (Cr (PRead q)). specialize (Cw (PRead q)). simpl in *.
    split; [lia|]. split; [lia|]. discriminate.
  - intros [= <-]. simpl.
    destruct (m !! q) as [s|];
      [specialize (Cr (PRUnlock q s true));
       specialize (Cw (PRUnlock q s true))
      |specialize (Cr (PRUnlock q None false));
       specialize (Cw (PRUnlock q None false))];
      simpl in *; (split; [lia|]); (split; [lia|]); done.
  - intros [= <-]. simpl.
    specialize (Cr (PCheck q s ok)). specialize (Cw (PCheck q s ok)).
    simpl in *. split; [lia|]. split; [lia|].
    intros ->. specialize (Hrw eq_refl). lia.
  - intros [= <-]. simpl.
    destruct ok;
      [specialize (Cr (PDone s None)); specialize (Cw (PDone s None))
      |specialize (Cr (PLock q)); specialize (Cw (PLock q))];
      simpl in *; (split; [lia|]); (split; [lia|]); done.
  - destruct wr; [discriminate|]. destruct n; [|discriminate]. simpl.
    intros [= <-]. simpl.
    specialize (Cr (PPrepare q)). specialize (Cw (PPrepare q)). simpl in *.
    split; [lia|]. split; [lia|]. done.
  - destruct (call_prepare prepare w q) as [w' [s e]]. intros [= <-]. simpl.
    specialize (Cr (PStore q s e)). specialize (Cw (PStore q s e)).
    simpl in *. split; [lia|]. split; [lia|]. done.
  - intros [= <-].
    specialize (Cr (PUnlock s e)). specialize (Cw (PUnlock s e)).
    destruct e; simpl in *; (split; [lia|]); (split; [lia|]); done.
  - intros [= <-]. simpl.
    specialize (Cr (PDone s e)). specialize (Cw (PDone s e)). simpl in *.
    destruct wr; [|lia]. split; [lia|]. split; [lia|]. discriminate.
  - discriminate.
  - destruct wr; [discriminate|]. destruct n; [|discriminate]. simpl.
    intros [= <-]. simpl.
    specialize (Cr (CLoop order)). specialize (Cw (CLoop order)). simpl in *.
    split; [lia|]. split; [lia|]. done.
  - destruct keys as [|key rest].
    + intros [= <-]. simpl.
      specialize (Cr CDone). specialize (Cw CDone). simpl in *.
      destruct wr; [|lia]. split; [lia|]. split; [lia|]. discriminate.
    + destruct (range_body stmtClose key m w) as [m' w'].
      intros [= <-]. simpl.
      specialize (Cr (CLoop rest)). specialize (Cw (CLoop rest)).
      simpl in *. split; [lia|]. split; [lia|]. done.
  - discriminate.
Qed.

Lemma run_well_locked sched st st0 :
  well_locked st -> run prepare stmtClose sched st = Some st0 ->
  well_locked st0.
Proof.
  revert st. induction sched as [|tid sched IH]; intros st Hwl; simpl.
  - by intros [= <-].
  - destruct (step prepare stmtClose st tid) as [st1|] eqn:Hs; [|discriminate].
    simpl. apply IH. by eapply step_well_locked.
Qed.

(** While a goroutine is in a write section, such as the loop of [Close],
    no other goroutine is in a read or a write section. *)
Lemma writer_excludes st i j p q :
  well_locked st -> i ≠ j ->
  threads st !! i = Some p -> threads st !! j = Some q ->
  writing p = true -> reading q = false ∧ writing q = false.
Proof.
  intros (Hr & Hw & Hrw) Hne Hi Hj Hp.
  pose proof (count_two writing _ _ _ _ _ Hne Hi Hj) as Hcw.
  pose proof (count_two reading _ _ _ _ _ Hne Hi Hj) as Hcr.
  rewrite Hp in Hcw.
  destruct (writer (lock (cache st))).
  - rewrite Hr, (Hrw eq_refl) in Hcr. rewrite Hw in Hcw.
    split; [destruct (reading q)|destruct (writing q)]; try done; lia.
  - rewrite Hw in Hcw. lia.
Qed.

(** A step outside the loop of [Close] leaves a cached key cached. *)
Lemma step_keeps_cached st st0 tid p key :
  threads st !! tid = Some p -> (∀ keys, p ≠ CLoop keys) ->
  step prepare stmtClose st tid = Some st0 ->
  is_Some (statements (cache st) !! key) ->
  is_Some (statements (cache st0) !! key).
Proof.
  destruct st as [[l m] w ts]. unfold step. simpl. intros -> Hp. simpl.
  destruct p as [q|q|q s ok|q s ok|q|q|q s e|s e|s e|order|keys|];
    simpl; unfold RLock, Lock; simpl.
  - destruct (writer l); [discriminate|]. by intros [= <-].
  - by intros [= <-].
  - by intros [= <-].
  - by intros [= <-].
  - destruct (writer l); [discriminate|].
    destruct (readers l); [|discriminate]. by intros [= <-].
  - destruct (call_prepare prepare w q) as [w' [s e]]. by intros [= <-].
  - intros [= <-]. destruct e; simpl; [done|].
    intros Hk. rewrite lookup_insert. case_decide; [by eauto|done].
  - by intros [= <-].
  - discriminate.
  - destruct (writer l); [discriminate|].
    destruct (readers l); [|discriminate]. by intros [= <-].
  - by destruct (Hp keys).
  - discriminate.
Qed.

(** A goroutine that finds the key when it reads the map (line 45) returns
    the statement it found with a nil error three steps later; it never
    waits on that way, and the map and the world stay as they are. *)
Lemma run_hit c w ts tid key stmt :
  ts !! tid = Some (PRead key) ->
  statements c !! key = Some stmt ->
  run prepare stmtClose [tid; tid; tid] (mkState c w ts) =
    Some (mkState (with_lock (RUnlock (lock c)) c) w
                  (<[tid := PDone stmt None]> ts)).
Proof.
  intros Ht Hk.
  assert (Hlt : tid < length ts) by by eapply lookup_lt_Some.
  simpl.
  rewrite (step_thread c w ts tid (PRead key) c w (PRUnlock key stmt true) Ht);
    [|simpl; by rewrite Hk].
  simpl.
  rewrite (step_thread _ _ _ tid (PRUnlock key stmt true) _ _ _
             (list_lookup_insert_eq _ _ _ Hlt) eq_refl).
  simpl. rewrite list_insert_insert_eq.
  rewrite (step_thread _ _ _ tid (PCheck key stmt true) _ _ _
             (list_lookup_insert_eq _ _ _ Hlt) eq_refl).
  simpl. by rewrite list_insert_insert_eq.
Qed.

(** What does hold of a cached entry, with the calls one after the other:
    once a key is cached, it stays cached with the same statement through
    any sequence of [PrepareContext], [QueryContext] and [ExecContext]
    calls, none of these calls asks the preparer for that key, and a
    [PrepareContext] for the key afterwards returns the cached statement
    with a nil error and changes neither the cache nor the world.  With
    calls in flight together only this much is left: a goroutine that
    reads the map while the key is cached returns the statement it read
    and leaves the map and the world alone, and no step of any goroutine
    outside the loop of [Close] takes a cached key out of the map; the
    statement under the key can still be replaced, by the store of a call
    that had read the map before the key was cached. *)
Lemma cached_entry_is_stable c w key stmt (ks : list (call (Args := Args))) :
  statements c !! key = Some stmt ->
  let cw := do_calls prepare stmtQuery stmtExec ks (c, w) in
  statements cw.1 !! key = Some stmt ∧
  filter (eq key) (prepared cw.2) = filter (eq key) (prepared w) ∧
  PrepareContext prepare cw.1 cw.2 key = (cw.1, cw.2, (stmt, None)) ∧
  (∀ ts tid, ts !! tid = Some (PRead key) ->
     ∃ st, run prepare stmtClose [tid; tid; tid] (mkState cw.1 cw.2 ts)
             = Some st ∧
           threads st !! tid = Some (PDone stmt None) ∧
           statements (cache st) = statements cw.1 ∧ env st = cw.2) ∧
  (∀ st st0 tid p,
     threads st !! tid = Some p -> (∀ keys, p ≠ CLoop keys) ->
     step prepare stmtClose st tid = Some st0 ->
     is_Some (statements (cache st) !! key) ->
     is_Some (statements (cache st0) !! key)).
Proof.
  intros Hk cw.
  destruct (do_calls_keeps ks (c, w) key stmt Hk) as [H1 H2].
  split; [done|]. split; [done|]. split; [by apply PrepareContext_hit|].
  split.
  - intros ts tid Ht. eexists.
    split; [exact (run_hit _ _ _ _ key stmt Ht H1)|]. simpl.
    split; [|done]. apply list_lookup_insert_eq. by eapply lookup_lt_Some.
  - intros st st0 tid p. apply step_keeps_cached.
Qed.

(** C7. [Close], visiting the keys of the map in any order, leaves the map
    empty and has called [Close] on exactly the non-nil statements the map
    held, once each, whatever errors those calls returned (the close
    function is arbitrary here); the preparer is not called.  The goroutine
    running it takes the exclusive lock first: alone, it gets from line 29
    to its return with this very result; after each of its steps but the
    last the writer flag is up, no goroutine about to lock can go on, and
    no other goroutine is inside a lock section. *)
Theorem Close_empties_the_cache order c w :
  order ≡ₚ (map_to_list (statements c)).*1 ->
  let r := Close stmtClose order c w in
  statements r.1 = ∅ ∧
  closed r.2 ≡ₚ closed w ++ held (statements c) ∧
  prepared r.2 = prepared w ∧
  ∀ ts tid, lock c = unlocked -> ts !! tid = Some (CStart order) ->
    run prepare stmtClose (replicate (S (S (length order))) tid)
        (mkState c w ts) = Some (mkState r.1 r.2 (<[tid := CDone]> ts)) ∧
    ∀ j : nat, (j ≤ length order)%nat ->
      ∃ st, run prepare stmtClose (replicate (S j) tid) (mkState c w ts)
              = Some st ∧
            writer (lock (cache st)) = true ∧
            (∀ p, acquires p = true ->
                  thread_step prepare stmtClose (cache st) (env st) p = None) ∧
            (well_locked (mkState c w ts) ->
             ∀ other q, other ≠ tid -> threads st !! other = Some q ->
                        reading q = false ∧ writing q = false).
Proof.
  intros Hp r. unfold r, Close.
  destruct (range_close_all order (statements c) w Hp) as (Hm & Hc & Hl).
  destruct (range_close stmtClose order (statements c) w) as [m w'] eqn:Hr.
  cbn [fst snd statements with_statements] in *.
  split; [done|]. split; [done|]. split; [done|].
  intros ts tid Hlock Ht. split.
  - rewrite (run_Close_alone order c w ts tid Ht Hlock).
    unfold Close. by rewrite Hr.
  - intros j Hj.
    assert (Hlt : tid < length ts) by by eapply lookup_lt_Some.
    pose proof (list_lookup_insert_eq ts tid (CLoop order) Hlt) as Hin.
    pose proof (run_loop j order (with_lock (mkRWMutex 0 true) c) w _ tid
                  Hin Hj) as Hloop.
    rewrite list_insert_insert_eq in Hloop.
    match type of Hloop with _ = Some ?st' =>
      assert (Hrun : run prepare stmtClose (replicate (S j) tid)
                       (mkState c w ts) = Some st')
    end.
    { rewrite replicate_S. simpl.
      rewrite (step_thread c w ts tid (CStart order)
                 (with_lock (mkRWMutex 0 true) c) w (CLoop order) Ht);
        [|simpl; by rewrite Hlock].
      simpl. exact Hloop. }
    eexists. split; [exact Hrun|]. split; [done|]. split.
    + intros p Hacq. by apply writer_blocks.
    + intros Hwl other q Hne Hq. simpl in Hq.
      apply (run_well_locked _ _ _ Hwl) in Hrun.
      apply (writer_excludes _ tid other (CLoop (drop j order)) q Hrun);
        [done| |done|done].
      simpl. by apply list_lookup_insert_eq.
Qed.

(** Two goroutines ask for the same key that is not cached, and each has
    read the map before the other takes the lock: both call the preparer,
    the second one after the first has stored its statement. *)
Lemma race_prepares_twice c w query :
  lock c = unlocked -> statements c !! query = None ->
  let r1 := call_prepare prepare w query in
  let r2 := call_prepare prepare r1.1 query in
  ∃ st,
    run prepare stmtClose [0;0;0;0; 1;1;1;1; 0;0;0;0; 1;1;1;1]
        (mkState c w [PStart query; PStart query]) = Some st ∧
    threads st = [PDone r1.2.1 r1.2.2; PDone r2.2.1 r2.2.2] ∧
    prepared (env st) = prepared w ++ [query; query].
Proof.
  intros Hl Hq r1 r2. destruct c as [l m]. simpl in *. subst l.
  unfold r2, r1. clear r1 r2.
  destruct (call_prepare prepare w query) as [w1 [s1 e1]] eqn:H1.
  destruct (call_prepare prepare w1 query) as [w2 [s2 e2]] eqn:H2.
  pose proof (call_prepare_log w query) as Hlog1.
  pose proof (call_prepare_log w1 query) as Hlog2.
  rewrite H1 in Hlog1. rewrite H2 in Hlog2. simpl in Hlog1, Hlog2.
  destruct e1 as [e1|]; destruct e2 as [e2|];
    (eexists; split;
     [ do 3 (cbn -[call_prepare]; rewrite ?Hq); rewrite H1;
       cbn -[call_prepare]; rewrite H2; reflexivity
     | cbn -[call_prepare]; rewrite ?H2; split; [reflexivity|];
       rewrite Hlog2, Hlog1, <- app_assoc; reflexivity ]).
Qed.

(** ** More on one call at a time *)

Lemma PrepareContext_other c w query key :
  key ≠ query ->
  statements (PrepareContext prepare c w query).1.1 !! key
    = statements c !! key ∧
  filter (eq key) (prepared (PrepareContext prepare c w query).1.2)
    = filter (eq key) (prepared w).
Proof.
  intros Hne. destruct (statements c !! query) as [cached|] eqn:Hq.
  - by rewrite (PrepareContext_hit _ _ _ _ Hq).
  - rewrite (PrepareContext_miss _ _ _ Hq). simpl.
    rewrite store_other by done. split; [done|].
    rewrite call_prepare_log, filter_app.
    rewrite (filter_cons_False _ query) by done.
    by rewrite filter_nil, app_nil_r.
Qed.

Lemma do_call_other (cw : stmtCache * world) (k : call (Args := Args)) key :
  key ≠ query_of k ->
  statements (do_call prepare stmtQuery stmtExec cw k).1 !! key
    = statements cw.1 !! key ∧
  filter (eq key) (prepared (do_call prepare stmtQuery stmtExec cw k).2)
    = filter (eq key) (prepared cw.2).
Proof.
  intros Hne. destruct k as [q|q args|q args]; simpl in *.
  - by apply PrepareContext_other.
  - destruct (QueryContext_cache cw.1 cw.2 q args) as [-> ->].
    by apply PrepareContext_other.
  - destruct (ExecContext_cache cw.1 cw.2 q args) as [-> ->].
    by apply PrepareContext_other.
Qed.

Lemma do_calls_other ks (cw : stmtCache * world) key :
  Forall (fun k : call (Args := Args) => query_of k ≠ key) ks ->
  statements (do_calls prepare stmtQuery stmtExec ks cw).1 !! key
    = statements cw.1 !! key ∧
  filter (eq key) (prepared (do_calls prepare stmtQuery stmtExec ks cw).2)
    = filter (eq key) (prepared cw.2).
Proof.
  intros Hks. revert cw.
  induction Hks as [|k ks Hk _ IH]; intros cw; [done|]. simpl.
  destruct (IH (do_call prepare stmtQuery stmtExec cw k)) as [-> ->].
  apply do_call_other. congruence.
Qed.

(** X1. A call for one query leaves every other key as it is, cached or not,
    and does not ask the preparer for it. *)
Theorem calls_leave_other_keys ks c w key :
  Forall (fun k : call (Args := Args) => query_of k ≠ key) ks ->
  let cw := do_calls prepare stmtQuery stmtExec ks (c, w) in
  statements cw.1 !! key = statements c !! key ∧
  filter (eq key) (prepared cw.2) = filter (eq key) (prepared w).
Proof. intros Hks. exact (do_calls_other ks (c, w) key Hks). Qed.

Lemma do_calls_hits (n : nat) c w query stmt :
  statements c !! query = Some stmt ->
  do_calls prepare stmtQuery stmtExec (replicate n (CallPrepare query)) (c, w)
    = (c, w).
Proof.
  intros Hq. induction n as [|n IH]; [done|].
  simpl. by rewrite (PrepareContext_hit _ _ _ _ Hq).
Qed.

(** X2. When the preparer succeeds for a key that is not cached, the first
    call caches what it returned, and however many calls for the key follow
    one after the other, the preparer has been asked once, and the cache
    and the world are as the first call left them. *)
Theorem sequential_calls_prepare_once c w query d stmt (n : nat) :
  statements c !! query = None ->
  prepare (db w) query = (d, (stmt, None)) ->
  let cw := do_calls prepare stmtQuery stmtExec
              (replicate (S n) (CallPrepare query)) (c, w) in
  statements cw.1 = <[query := stmt]> (statements c) ∧
  prepared cw.2 = prepared w ++ [query] ∧
  db cw.2 = d ∧
  PrepareContext prepare cw.1 cw.2 query = (cw.1, cw.2, (stmt, None)).
Proof.
  intros Hq Hp. simpl.
  rewrite (PrepareContext_miss _ _ _ Hq). unfold call_prepare. rewrite Hp.
  simpl.
  assert (Hc : statements (with_statements (<[query:=stmt]> (statements c)) c)
               !! query = Some stmt) by apply lookup_insert_eq.
  rewrite (do_calls_hits n _ _ _ _ Hc). simpl.
  split; [done|]. split; [done|]. split; [done|].
  by apply PrepareContext_hit.
Qed.

(** X3. The statement stays cached whatever running it gives: after a first
    [QueryContext] for an uncached key whose preparing succeeds, the key is
    cached even when the query itself failed or panicked, and the next
    [QueryContext] runs the same statement without asking the preparer. *)
Theorem failed_query_keeps_statement c w query d stmt args args' :
  statements c !! query = None ->
  prepare (db w) query = (d, (stmt, None)) ->
  let first := QueryContext prepare stmtQuery c w query args in
  let second :=
    QueryContext prepare stmtQuery first.1.1 first.1.2 query args' in
  statements first.1.1 !! query = Some stmt ∧
  first.2 = (stmtQuery d stmt args).2 ∧
  prepared second.1.2 = prepared w ++ [query] ∧
  second.1.1 = first.1.1 ∧
  second.2 = (stmtQuery (db first.1.2) stmt args').2.
Proof.
  intros Hq Hp first second.
  assert (Hfirst : first =
            (with_statements (<[query:=stmt]> (statements c)) c,
             with_db (stmtQuery d stmt args).1
               {| db := d; prepared := prepared w ++ [query];
                  closed := closed w |},
             (stmtQuery d stmt args).2)).
  { unfold first, QueryContext. rewrite (PrepareContext_miss _ _ _ Hq).
    unfold call_prepare. rewrite Hp. simpl.
    by destruct (stmtQuery d stmt args). }
  unfold second. rewrite Hfirst. simpl.
  split; [apply lookup_insert_eq|]. split; [done|].
  unfold QueryContext. rewrite (PrepareContext_hit _ _ _ stmt);
    [|apply lookup_insert_eq].
  simpl. by destruct (stmtQuery _ stmt args').
Qed.

Lemma range_close_empty keys w :
  range_close stmtClose keys (∅ : gmap string (option Stmt)) w = (∅, w).
Proof.
  induction keys as [|key keys IH]; [done|]. simpl.
  unfold range_body. by rewrite lookup_empty.
Qed.

(** X4. A second [Close] has nothing left to do: whatever order it would visit
    keys in, it calls no statement's [Close] and leaves the cache empty. *)
Theorem Close_twice order order' c w :
  order ≡ₚ (map_to_list (statements c)).*1 ->
  let r := Close stmtClose order c w in
  Close stmtClose order' r.1 r.2 = r.
Proof.
  intros Hp r. unfold r, Close.
  destruct (range_close_all order (statements c) w Hp) as (Hm & _ & _).
  destruct (range_close stmtClose order (statements c) w) as [m w'].
  simpl in *. subst m. by rewrite range_close_empty.
Qed.

(** X5. The cache can be used after [Close]: a [PrepareContext] then asks the
    preparer, also for a key that was cached before, and caches what it gets
    as on a new cache. *)
Theorem PrepareContext_after_Close order c w query :
  order ≡ₚ (map_to_list (statements c)).*1 ->
  let r := Close stmtClose order c w in
  let p := PrepareContext prepare r.1 r.2 query in
  prepared p.1.2 = prepared w ++ [query] ∧
  p.2 = (prepare (db r.2) query).2 ∧
  (p.2.2 = None -> statements p.1.1 = {[query := p.2.1]}).
Proof.
  intros Hp r p. unfold p, r, Close.
  destruct (range_close_all order (statements c) w Hp) as (Hm & _ & Hl).
  destruct (range_close stmtClose order (statements c) w) as [m w'].
  simpl in *. subst m.
  rewrite PrepareContext_miss by apply lookup_empty. simpl.
  rewrite call_prepare_log, Hl. split; [done|].
  unfold call_prepare. destruct (prepare (db w') query) as [d' [stmt err]].
  simpl. split; [done|]. intros ->. simpl. by rewrite insert_empty.
Qed.

(** ** More on calls in flight together *)

Lemma count_none (f : pc -> bool) ts :
  Forall (fun p => f p = false) ts -> count f ts = 0.
Proof.
  induction 1 as [|p ts Hp _ IH]; [done|]. simpl. by rewrite Hp, IH.
Qed.

Lemma count_some (f : pc -> bool) ts :
  (0 < count f ts)%nat -> ∃ tid p, ts !! tid = Some p ∧ f p = true.
Proof.
  induction ts as [|p ts IH]; simpl; [lia|].
  destruct (f p) eqn:Hf.
  - intros _. by exists 0, p.
  - intros Hc. destruct IH as (tid & q & Hq & Hfq); [lia|].
    by exists (S tid), q.
Qed.

Lemma starting_well_locked c w ts :
  lock c = unlocked -> Forall (fun p => starting p = true) ts ->
  well_locked (mkState c w ts).
Proof.
  intros Hl Hs. unfold well_locked. simpl. rewrite Hl. simpl.
  rewrite !count_none; [done|..];
    (eapply Forall_impl; [exact Hs|]); by intros [].
Qed.

(** X6. From a free lock and goroutines at the start of their calls, whatever
    the schedule: a goroutine in a write section has no other goroutine in
    a read or write section beside it, and once every goroutine has
    returned the lock is free again. *)
Theorem goroutines_exclude_each_other sched c w ts st :
  lock c = unlocked -> Forall (fun p => starting p = true) ts ->
  run prepare stmtClose sched (mkState c w ts) = Some st ->
  (∀ i j p q, i ≠ j -> threads st !! i = Some p -> threads st !! j = Some q ->
              writing p = true -> reading q = false ∧ writing q = false) ∧
  (Forall (fun p => returned p = true) (threads st) ->
   lock (cache st) = unlocked).
Proof.
  intros Hl Hs Hrun.
  pose proof (run_well_locked _ _ _ (starting_well_locked c w ts Hl Hs) Hrun)
    as Hwl.
  split.
  - intros i j p q Hne Hi Hj Hp. by eapply writer_excludes.
  - intros Hret. destruct Hwl as (Hr & Hw & _).
    rewrite count_none in Hr, Hw;
      try ((eapply Forall_impl; [exact Hret|]); by intros []).
    destruct (lock (cache st)) as [n wr]. simpl in *. subst n.
    by destruct wr.
Qed.

Lemma step_at st tid p :
  threads st !! tid = Some p ->
  is_Some (thread_step prepare stmtClose (cache st) (env st) p) ->
  is_Some (step prepare stmtClose st tid).
Proof.
  intros Ht [[[c' w'] p'] Hs]. unfold step. rewrite Ht. simpl.
  rewrite Hs. simpl. eauto.
Qed.

(** X7. The goroutines never block each other for good: in every state reached
    from a free lock and goroutines at the start of their calls, if some
    goroutine has not returned then some goroutine can take a step. *)
Theorem no_deadlock sched c w ts st :
  lock c = unlocked -> Forall (fun p => starting p = true) ts ->
  run prepare stmtClose sched (mkState c w ts) = Some st ->
  (∃ tid p, threads st !! tid = Some p ∧ returned p = false) ->
  ∃ tid, is_Some (step prepare stmtClose st tid).
Proof.
  intros Hl Hs Hrun (tid & p & Ht & Hp).
  pose proof (run_well_locked _ _ _ (starting_well_locked c w ts Hl Hs) Hrun)
    as (Hr & Hw & Hrw).
  destruct (writer (lock (cache st))) eqn:Hwr.
  - destruct (count_some writing (threads st)) as (i & q & Hi & Hq); [lia|].
    exists i. apply (step_at st i q Hi).
    destruct q as [| | | | | | | | | |[|key keys]|]; try discriminate Hq;
      simpl; eauto.
    + by destruct (call_prepare prepare (env st) query) as [w' [s e]].
    + by destruct (range_body stmtClose key _ _).
  - destruct (readers (lock (cache st))) as [|n] eqn:Hn.
    + exists tid. apply (step_at st tid p Ht).
      destruct p as [| | | | | | | | | |[|key keys]|]; try discriminate Hp;
        simpl; unfold RLock, Lock; rewrite ?Hwr, ?Hn; simpl; eauto.
      * by destruct (call_prepare prepare (env st) query) as [w' [s e]].
      * by destruct (range_body stmtClose key _ _).
    + destruct (count_some reading (threads st)) as (i & q & Hi & Hq); [lia|].
      exists i. apply (step_at st i q Hi).
      destruct q; try discriminate Hq; simpl; eauto.
Qed.

Lemma budget_insert ts tid p q :
  ts !! tid = Some p ->
  budget (<[tid := q]> ts) + remaining p = budget ts + remaining q.
Proof.
  revert tid. induction ts as [|p' ts IH]; intros [|tid] Ht;
    try discriminate; simpl in *.
  - injection Ht as ->. lia.
  - specialize (IH tid Ht). lia.
Qed.

Lemma thread_step_remaining (c c' : stmtCache) w w' p p' :
  thread_step prepare stmtClose c w p = Some (c', w', p') ->
  (remaining p' < remaining p)%nat.
Proof.
  destruct p as [| | |q s [|]| | | | | | |[|key keys]|]; simpl;
    unfold RLock, Lock;
    repeat match goal with
           | |- context [writer ?l] => destruct (writer l)
           | |- context [readers ?l] => destruct (readers l)
           | |- context [call_prepare ?a ?b ?c] =>
               destruct (call_prepare a b c) as [? [? ?]]
           | |- context [range_body ?a ?b ?c ?d] =>
               destruct (range_body a b c d)
           | |- context [statements ?c !! ?q] => destruct (statements c !! q)
           end; simpl; intros Hs; simplify_eq; simpl; lia.
Qed.

(** X8. Every call returns after a bounded number of its own steps: a schedule
    that runs is no longer than the steps the goroutines had left, eight for
    a [PrepareContext] and two more than the keys to visit for a [Close]. *)
Theorem schedules_are_bounded sched st st0 :
  run prepare stmtClose sched st = Some st0 ->
  (length sched + budget (threads st0) ≤ budget (threads st))%nat.
Proof.
  revert st. induction sched as [|tid sched IH]; intros st; simpl.
  - intros [= <-]. lia.
  - destruct (step prepare stmtClose st tid) as [st1|] eqn:Hs; [|discriminate].
    simpl. intros Hrun. specialize (IH _ Hrun).
    unfold step in Hs.
    destruct (threads st !! tid) as [p|] eqn:Ht; [|discriminate].
    simpl in Hs.
    destruct (thread_step prepare stmtClose (cache st) (env st) p)
      as [[[c' w'] p']|] eqn:Hp; [|discriminate].
    simpl in Hs. injection Hs as <-. simpl in IH.
    pose proof (thread_step_remaining _ _ _ _ _ _ Hp).
    pose proof (budget_insert (threads st) tid p p' Ht). lia.
Qed.

(** X9. Under every schedule a call asks the preparer at most once, and [Close]
    never does: the log of the preparer grows by no more than the number of
    goroutines that were in [PrepareContext] before its line 55. *)
Theorem prepares_at_most_once_per_call sched st st0 :
  run prepare stmtClose sched st = Some st0 ->
  (length (prepared (env st0)) + count before_prepare (threads st0)
   ≤ length (prepared (env st)) + count before_prepare (threads st))%nat.
Proof.
  revert st. induction sched as [|tid sched IH]; intros st; simpl.
  - intros [= <-]. lia.
  - destruct (step prepare stmtClose st tid) as [st1|] eqn:Hs; [|discriminate].
    simpl. intros Hrun. specialize (IH _ Hrun).
    assert (length (prepared (env st1)) + count before_prepare (threads st1)
            ≤ length (prepared (env st))
              + count before_prepare (threads st))%nat; [|lia].
    clear IH Hrun. unfold step in Hs.
    destruct (threads st !! tid) as [p|] eqn:Ht; [|discriminate].
    simpl in Hs.
    pose proof (fun q => count_insert before_prepare _ tid p q Ht) as Hc.
    destruct st as [c w ts]. simpl in *.
    destruct p as [q|q|q s ok|q s ok|q|q|q s e|s e|s e|order|keys|];
      simpl in Hs; unfold RLock, Lock in Hs.
    + destruct (writer (lock c)); [discriminate|]. simpl in Hs.
      injection Hs as <-. simpl. specialize (Hc (PRead q)). simpl in Hc. lia.
    + injection Hs as <-. simpl.
      destruct (statements c !! q);
        [specialize (Hc (PRUnlock q o true))
        |specialize (Hc (PRUnlock q None false))]; simpl in Hc; lia.
    + injection Hs as <-. simpl. specialize (Hc (PCheck q s ok)).
      simpl in Hc. lia.
    + injection Hs as <-. simpl.
      destruct ok; [specialize (Hc (PDone s None))|specialize (Hc (PLock q))];
        simpl in Hc; lia.
    + destruct (writer (lock c)); [discriminate|].
      destruct (readers (lock c)); [|discriminate]. simpl in Hs.
      injection Hs as <-. simpl. specialize (Hc (PPrepare q)).
      simpl in Hc. lia.
    + pose proof (call_prepare_log w q) as Hlog.
      destruct (call_prepare prepare w q) as [w' [s e]]. simpl in *.
      injection Hs as <-. simpl. specialize (Hc (PStore q s e)).
      simpl in Hc. rewrite Hlog, length_app. simpl. lia.
    + injection Hs as <-. simpl. specialize (Hc (PUnlock s e)).
      simpl in Hc. lia.
    + injection Hs as <-. simpl. specialize (Hc (PDone s e)).
      simpl in Hc. lia.
    + discriminate.
    + destruct (writer (lock c)); [discriminate|].
      destruct (readers (lock c)); [|discriminate]. simpl in Hs.
      injection Hs as <-. simpl. specialize (Hc (CLoop order)).
      simpl in Hc. lia.
    + destruct keys as [|key rest].
      * injection Hs as <-. simpl. specialize (Hc CDone). simpl in Hc. lia.
      * assert (Hb : prepared (range_body stmtClose key (statements c) w).2
                     = prepared w).
        { unfold range_body. destruct (statements c !! key) as [[s|]|]; try done.
          simpl. apply call_close_log. }
        destruct (range_body stmtClose key (statements c) w) as [m w'].
        simpl in *. injection Hs as <-. simpl.
        specialize (Hc (CLoop rest)). simpl in Hc. rewrite Hb. lia.
    + discriminate.
Qed.

End facts.

End StmtCacheFacts.

(** ** The cache at work *)

Module StmtCacheRuns.
Import StmtCache Scenario Cases.

(** C1. On the code the claim fails: when two goroutines ask for the same
    uncached query and both have read the map before either takes the lock,
    the preparer is called twice, the callers get two different statements,
    and the second statement replaces the first in the map. *)
Theorem racing_callers_prepare_twice :
  ∃ st, run numbering closeFails bothReadFirst twoCallers = Some st ∧
        threads st = [PDone (Some 0) None; PDone (Some 1) None] ∧
        prepared (env st) = ["select 1"; "select 1"] ∧
        statements (cache st) !! "select 1" = Some (Some 1) ∧
        lock (cache st) = unlocked.
Proof. eexists. split; [vm_compute; reflexivity|]. by vm_compute. Qed.

(** C4. On the code the claim fails: an entry that was created and cached
    is created again and replaced.  The first caller returns statement 0
    and the key is cached with it; a call that starts then gets statement
    0 from the cache.  The second caller had read the map before that
    (lines 44-48); it goes on at line 52, asks the preparer again and
    stores statement 1 over statement 0, which is never closed.  A call
    that starts after that gets statement 1: two calls that both came
    after the entry was cached hold different statements. *)
Theorem in_flight_call_replaces_cached_entry :
  ∃ st1 st2 st3,
    run numbering closeFails firstReturns fourCallers = Some st1 ∧
    threads st1 !! 0 = Some (PDone (Some 0) None) ∧
    statements (cache st1) !! "select 1" = Some (Some 0) ∧
    prepared (env st1) = ["select 1"] ∧
    run numbering closeFails [2; 2; 2; 2] st1 = Some st2 ∧
    threads st2 !! 2 = Some (PDone (Some 0) None) ∧
    run numbering closeFails [1; 1; 1; 1;  3; 3; 3; 3] st2 = Some st3 ∧
    threads st3 = [PDone (Some 0) None; PDone (Some 1) None;
                   PDone (Some 0) None; PDone (Some 1) None] ∧
    prepared (env st3) = ["select 1"; "select 1"] ∧
    statements (cache st3) !! "select 1" = Some (Some 1) ∧
    closed (env st3) = [] ∧
    lock (cache st3) = unlocked.
Proof.
  do 3 eexists.
  split; [vm_compute; reflexivity|].
  split; [vm_compute; reflexivity|].
  split; [vm_compute; reflexivity|].
  split; [vm_compute; reflexivity|].
  split; [vm_compute; reflexivity|].
  split; [vm_compute; reflexivity|].
  split; [vm_compute; reflexivity|].
  by vm_compute.
Qed.

(** A failing preparer on an empty cache: the error comes back, nothing is
    cached, and the second call asks the preparer again. *)
Lemma PrepareContext_failure_not_cached_witness :
  let first :=
    PrepareContext numbering emptyCache emptyWorld "select nonsense" in
  statements emptyCache !! "select nonsense" = None ∧
  first.2 = (None, Some "syntax error") ∧
  first.1.1 = emptyCache ∧
  prepared (PrepareContext numbering first.1.1 first.1.2 "select nonsense").1.2
    = ["select nonsense"; "select nonsense"].
Proof.
  intros first. split; [reflexivity|].
  destruct (StmtCacheFacts.PrepareContext_failure_not_cached numbering
              emptyCache emptyWorld "select nonsense" 0 None "syntax error"
              eq_refl eq_refl) as (H1 & H2 & H3 & H4 & H5 & H6).
  split; [exact H1|]. split; [exact H2|]. exact H5.
Defined.

(** The cache after "select 1" was prepared. *)
Lemma cached_entry_is_stable_witness :
  let c := (PrepareContext numbering emptyCache emptyWorld "select 1").1.1 in
  let w := (PrepareContext numbering emptyCache emptyWorld "select 1").1.2 in
  let ks := [CallPrepare "select 2"; CallQuery "select 1" ["x"];
             CallExec "select nonsense" []; CallPrepare "select 1"] in
  let cw := do_calls numbering runQuery runExec ks (c, w) in
  statements c !! "select 1" = Some (Some 0) ∧
  statements cw.1 !! "select 1" = Some (Some 0) ∧
  PrepareContext numbering cw.1 cw.2 "select 1" = (cw.1, cw.2, (Some 0, None)).
Proof.
  intros c w ks cw. split; [reflexivity|].
  destruct (StmtCacheFacts.cached_entry_is_stable numbering closeFails
              runQuery runExec c w "select 1" (Some 0) ks eq_refl)
    as (H1 & H2 & H3 & H4 & H5).
  split; [exact H1|exact H3].
Defined.

(** Three entries, one of them nil, every [Close] failing. *)
Lemma Close_empties_the_cache_witness :
  let r := Close closeFails ["b"; "c"; "a"] threeEntries emptyWorld in
  ["b"; "c"; "a"] ≡ₚ (map_to_list (statements threeEntries)).*1 ∧
  statements r.1 = ∅ ∧
  closed r.2 ≡ₚ held (statements threeEntries).
Proof.
  intros r.
  assert (Hp : ["b"; "c"; "a"] ≡ₚ (map_to_list (statements threeEntries)).*1)
    by (apply (bool_decide_unpack _); vm_compute; exact I).
  split; [exact Hp|].
  destruct (StmtCacheFacts.Close_empties_the_cache numbering closeFails
              ["b"; "c"; "a"] threeEntries emptyWorld Hp)
    as (H1 & H2 & H3 & H4).
  split; [exact H1|exact H2].
Defined.

(** ** The other properties, run *)

(** Calls for two queries on a new cache, and a third key. *)
Lemma calls_leave_other_keys_witness :
  let ks := [CallPrepare "select 1"; CallQuery "select 2" ["x"];
             CallExec "select nonsense" []] in
  let cw := do_calls numbering runQuery runExec ks (emptyCache, emptyWorld) in
  Forall (fun k => query_of k ≠ "select 3") ks ∧
  statements cw.1 !! "select 3" = None ∧
  filter (eq "select 3") (prepared cw.2) = [].
Proof.
  intros ks cw.
  assert (Hks : Forall (fun k => query_of k ≠ "select 3") ks)
    by (repeat constructor; discriminate).
  split; [exact Hks|].
  exact (StmtCacheFacts.calls_leave_other_keys numbering runQuery runExec
           ks emptyCache emptyWorld "select 3" Hks).
Defined.

(** Four calls for the same query, one after the other. *)
Lemma sequential_calls_prepare_once_witness :
  let cw := do_calls numbering runQuery runExec
              (replicate 4 (CallPrepare "select 1")) (emptyCache, emptyWorld) in
  statements emptyCache !! "select 1" = None ∧
  numbering 0 "select 1" = (1, (Some 0, None)) ∧
  prepared cw.2 = ["select 1"] ∧
  PrepareContext numbering cw.1 cw.2 "select 1" = (cw.1, cw.2, (Some 0, None)).
Proof.
  intros cw. split; [reflexivity|]. split; [reflexivity|].
  destruct (StmtCacheFacts.sequential_calls_prepare_once numbering runQuery
              runExec emptyCache emptyWorld "select 1" 1 (Some 0) 3
              eq_refl eq_refl) as (_ & H2 & _ & H4).
  split; [exact H2|exact H4].
Defined.

(** A preparer that gives a nil statement with no error: running it
    panics, the nil entry stays cached, and the second call panics
    without a second call of the preparer. *)
Lemma failed_query_keeps_statement_witness :
  let first :=
    QueryContext nilStatement runQuery emptyCache emptyWorld "select 1" ["x"] in
  let second :=
    QueryContext nilStatement runQuery first.1.1 first.1.2 "select 1" ["y"] in
  statements emptyCache !! "select 1" = None ∧
  nilStatement 0 "select 1" = (0, (None, None)) ∧
  first.2 = Panics ∧
  statements first.1.1 !! "select 1" = Some None ∧
  prepared second.1.2 = ["select 1"] ∧
  second.2 = Panics.
Proof.
  intros first second. split; [reflexivity|]. split; [reflexivity|].
  destruct (StmtCacheFacts.failed_query_keeps_statement nilStatement runQuery
              emptyCache emptyWorld "select 1" 0 None ["x"] ["y"]
              eq_refl eq_refl) as (H1 & H2 & H3 & _ & H5).
  split; [exact H2|]. split; [exact H1|]. split; [exact H3|exact H5].
Defined.

(** Three entries closed, then [Close] again. *)
Lemma Close_twice_witness :
  let r := Close closeFails ["b"; "c"; "a"] threeEntries emptyWorld in
  ["b"; "c"; "a"] ≡ₚ (map_to_list (statements threeEntries)).*1 ∧
  closed r.2 = [3; 1] ∧
  Close closeFails ["a"; "b"; "c"] r.1 r.2 = r.
Proof.
  intros r.
  assert (Hp : ["b"; "c"; "a"] ≡ₚ (map_to_list (statements threeEntries)).*1)
    by (apply (bool_decide_unpack _); vm_compute; exact I).
  split; [exact Hp|]. split; [reflexivity|].
  exact (StmtCacheFacts.Close_twice closeFails ["b"; "c"; "a"]
           ["a"; "b"; "c"] threeEntries emptyWorld Hp).
Defined.

(** Key "a" was cached with statement 1; after [Close] it is prepared
    anew. *)
Lemma PrepareContext_after_Close_witness :
  let r := Close closeFails ["b"; "c"; "a"] threeEntries emptyWorld in
  let p := PrepareContext numbering r.1 r.2 "a" in
  ["b"; "c"; "a"] ≡ₚ (map_to_list (statements threeEntries)).*1 ∧
  statements threeEntries !! "a" = Some (Some 1) ∧
  prepared p.1.2 = ["a"] ∧
  p.2 = (Some 0, None) ∧
  statements p.1.1 = {["a" := Some 0]}.
Proof.
  intros r p.
  assert (Hp : ["b"; "c"; "a"] ≡ₚ (map_to_list (statements threeEntries)).*1)
    by (apply (bool_decide_unpack _); vm_compute; exact I).
  split; [exact Hp|]. split; [reflexivity|].
  destruct (StmtCacheFacts.PrepareContext_after_Close numbering closeFails
              ["b"; "c"; "a"] threeEntries emptyWorld "a" Hp)
    as (H1 & H2 & H3).
  split; [exact H1|]. split; [exact H2|]. exact (H3 eq_refl).
Defined.

(** The first caller is in its write section, the second has not started:
    nobody else is in a section. *)
Lemma goroutines_exclude_each_other_witness :
  ∃ st, run numbering closeFails [0; 0; 0; 0; 0] twoCallers = Some st ∧
        threads st = [PPrepare "select 1"; PStart "select 1"] ∧
        ∀ j q, 0 ≠ j -> threads st !! j = Some q ->
               reading q = false ∧ writing q = false.
Proof.
  assert (Hts : Forall (fun p : pc (Stmt := nat) (Err := string) =>
                          starting p = true)
                  [PStart "select 1"; PStart "select 1"])
    by (repeat constructor).
  eexists. split; [vm_compute; reflexivity|]. split; [reflexivity|].
  intros j q Hj Hq.
  exact (proj1 (StmtCacheFacts.goroutines_exclude_each_other numbering
                  closeFails [0; 0; 0; 0; 0] newStmtCache emptyWorld
                  [PStart "select 1"; PStart "select 1"] _ eq_refl Hts
                  eq_refl)
           0 j (PPrepare "select 1") q Hj eq_refl Hq eq_refl).
Defined.

(** The first caller waits for the lock, which the second holds as a
    reader: the second can go on. *)
Lemma no_deadlock_witness :
  ∃ st, run numbering closeFails [1; 0; 0; 0; 0] twoCallers = Some st ∧
        threads st = [PLock "select 1"; PRead "select 1"] ∧
        step numbering closeFails st 0 = None ∧
        ∃ tid, is_Some (step numbering closeFails st tid).
Proof.
  assert (Hts : Forall (fun p : pc (Stmt := nat) (Err := string) =>
                          starting p = true)
                  [PStart "select 1"; PStart "select 1"])
    by (repeat constructor).
  assert (Hrun : run numbering closeFails [1; 0; 0; 0; 0] twoCallers
                 = Some (mkState (mkCache (mkRWMutex 1 false) ∅) emptyWorld
                           [PLock "select 1"; PRead "select 1"]))
    by (vm_compute; reflexivity).
  eexists. split; [exact Hrun|]. split; [reflexivity|].
  split; [vm_compute; reflexivity|].
  apply (StmtCacheFacts.no_deadlock numbering closeFails [1; 0; 0; 0; 0]
           newStmtCache emptyWorld [PStart "select 1"; PStart "select 1"]
           _ eq_refl Hts Hrun).
  exists 0, (PLock "select 1"). split; reflexivity.
Defined.

(** The sixteen steps of two calls that both ask the preparer. *)
Lemma schedules_are_bounded_witness :
  ∃ st, run numbering closeFails bothReadFirst twoCallers = Some st ∧
        budget (threads twoCallers) = 16 ∧
        (length bothReadFirst + budget (threads st)
         ≤ budget (threads twoCallers))%nat.
Proof.
  destruct (run numbering closeFails bothReadFirst twoCallers) as [st|] eqn:Hrun;
    [|vm_compute in Hrun; discriminate Hrun].
  exists st. split; [reflexivity|]. split; [reflexivity|].
  exact (StmtCacheFacts.schedules_are_bounded numbering closeFails
           bothReadFirst twoCallers st Hrun).
Defined.

(** Two calls, two calls of the preparer at most. *)
Lemma prepares_at_most_once_per_call_witness :
  ∃ st, run numbering closeFails bothReadFirst twoCallers = Some st ∧
        count before_prepare (threads twoCallers) = 2 ∧
        (length (prepared (env st)) + count before_prepare (threads st)
         ≤ length (prepared (env twoCallers))
           + count before_prepare (threads twoCallers))%nat.
Proof.
  destruct (run numbering closeFails bothReadFirst twoCallers) as [st|] eqn:Hrun;
    [|vm_compute in Hrun; discriminate Hrun].
  exists st. split; [reflexivity|]. split; [reflexivity|].
  exact (StmtCacheFacts.prepares_at_most_once_per_call numbering closeFails
           bothReadFirst twoCallers st Hrun).
Defined.

End StmtCacheRuns.

(** * Properties of the server *)

Module HttpServerFacts.
Import HttpServer.

Section chain.

Context {H : Type}.
Implicit Types (cs : list (H -> H)) (h : H).

(** The loop of [Then], stopped after [k] turns, has wrapped the handler
    in the last [k] constructors, the last of them innermost. *)
Lemma Then_loop cs h (k : nat) :
  (k ≤ length cs)%nat ->
  foldl (fun h i =>
           match cs !! (length cs - 1 - i)%nat with
           | Some m => m h
           | None => h
           end) h (seq 0 k)
  = foldr (fun m h => m h) h (drop (length cs - k) cs).
Proof.
  induction k as [|k IH]; intros Hk.
  - simpl. by rewrite Nat.sub_0_r, drop_all.
  - rewrite seq_S, foldl_app. simpl. rewrite IH by lia.
    destruct (lookup_lt_is_Some_2 cs (length cs - 1 - k)) as [m Hm]; [lia|].
    rewrite Hm.
    replace (length cs - S k)%nat with (length cs - 1 - k)%nat by lia.
    rewrite (drop_S _ _ _ Hm). simpl.
    by replace (S (length cs - 1 - k)) with (length cs - k)%nat by lia.
Qed.

(** [New(m1, ..., mn).Then(h)] is [m1(...(mn(h)))]. *)
Lemma Then_foldr (c : alice.Chain H) h :
  alice.Then c h = foldr (fun m h => m h) h (alice.constructors c).
Proof.
  unfold alice.Then. rewrite Then_loop by done.
  by rewrite Nat.sub_diag, drop_0.
Qed.

Lemma Then_Append (c : alice.Chain H) (m : H -> H) h :
  alice.Then (alice.Append c m) h = alice.Then c (m h).
Proof. rewrite !Then_foldr. simpl. by rewrite foldr_app. Qed.

End chain.

Section options.

Lemma applyAddress_refused network address c :
  refused network address ->
  ∃ err, applyAddress network address c = (c, Some err).
Proof.
  intros Href. unfold applyAddress.
  destruct (bool_decide (network = "udp") || bool_decide (network = "unixgram"))
    eqn:Hconn; [eauto|].
  apply orb_false_iff in Hconn as [Hudp Hgram].
  apply bool_decide_eq_false in Hudp, Hgram.
  case_bool_decide; [eauto|]. case_bool_decide; [eauto|].
  destruct Href as [?|[?|[?|?]]]; done.
Qed.

(** An option that is, or holds, a refused address option fails, whatever
    the options before it inside a slice do. *)
Lemma apply_refused network address :
  refused network address ->
  ∀ o c, has_address network address o ->
         ∃ c' err, apply o c = (c', Some err).
Proof.
  intros Href. fix IH 1. intros [n a|os] c Hhas.
  - destruct Hhas as [-> ->]. simpl.
    destruct (applyAddress_refused network address c Href) as [err ->].
    eauto.
  - simpl in *. revert c. induction os as [|o rest IHrest]; intros c.
    + destruct Hhas.
    + destruct (apply o c) as [c' [err|]] eqn:Ho; [eauto|].
      destruct Hhas as [Hhas|Hhas].
      * destruct (IH o c Hhas) as (c'' & err & Heq). congruence.
      * apply (IHrest Hhas).
Qed.

Lemma applyAll_refused network address options cfg :
  refused network address ->
  Exists (has_address network address) options ->
  ∃ cfg' cause, applyAll options cfg = (cfg', Some (ErrCreate cause)).
Proof.
  intros Href Hex. revert cfg.
  induction Hex as [o rest Hhas|o rest Hex IH]; intros cfg; simpl.
  - destruct (apply_refused network address Href o cfg Hhas)
      as (c' & err & ->). eauto.
  - destruct (apply o cfg) as [c' [err|]]; [eauto|]. apply IH.
Qed.

Lemma applyAddress_accepts network address c :
  ¬ refused network address ->
  applyAddress network address c
    = ({| network := network; address := address |}, None).
Proof.
  intros Hok. unfold applyAddress, refused in *.
  repeat case_bool_decide; simpl; try done; exfalso; apply Hok; auto.
Qed.

Lemma applyAddress_error network address :
  refused network address ->
  ∃ err, ∀ c, applyAddress network address c = (c, Some err).
Proof.
  intros Href. destruct (applyAddress_refused network address defaultConfig Href)
    as [err Herr].
  exists err. intros c. unfold applyAddress in *.
  destruct (bool_decide (network = "udp") || bool_decide (network = "unixgram"));
    [by injection Herr as <-|].
  repeat case_bool_decide; try discriminate; by injection Herr as <-.
Qed.

Lemma applyAddresses_app l1 l2 c :
  applyAddresses (l1 ++ l2) c =
  match applyAddresses l1 c with
  | (c', Some err) => (c', Some err)
  | (c', None) => applyAddresses l2 c'
  end.
Proof.
  revert c. induction l1 as [|[n a] l1 IH]; intros c; simpl; [done|].
  destruct (applyAddress n a c) as [c' [err|]]; [done|apply IH].
Qed.

(** An option does what the address options inside it do, in their order. *)
Lemma apply_addresses :
  ∀ o c, apply o c = applyAddresses (addresses o) c.
Proof.
  fix IH 1. intros [n a|os] c.
  - simpl. by destruct (applyAddress n a c) as [c' [err|]].
  - simpl. revert c. induction os as [|o rest IHrest]; intros c; [done|].
    rewrite applyAddresses_app, <- (IH o c).
    destruct (apply o c) as [c' [err|]]; [done|apply IHrest].
Qed.

Lemma applyAll_addresses options cfg :
  applyAll options cfg =
  match applyAddresses (allAddresses options) cfg with
  | (cfg', Some err) => (cfg', Some (ErrCreate err))
  | (cfg', None) => (cfg', None)
  end.
Proof.
  revert cfg. induction options as [|o rest IH]; intros cfg; [done|].
  unfold allAddresses. simpl. fold (allAddresses rest).
  rewrite applyAddresses_app, <- apply_addresses.
  destruct (apply o cfg) as [cfg' [err|]]; [done|apply IH].
Qed.

Lemma applyAddresses_good l c :
  Forall (fun na => ¬ refused na.1 na.2) l ->
  applyAddresses l c
    = (from_option (fun na => {| network := na.1; address := na.2 |}) c
         (last l), None).
Proof.
  intros Hl. revert c. induction Hl as [|[n a] l Hna _ IH]; intros c; [done|].
  simpl in *. rewrite (applyAddress_accepts n a c Hna), IH.
  destruct l as [|na l]; [done|]. rewrite last_cons_cons.
  destruct (last (na :: l)) as [x|] eqn:Hlast; [done|].
  by apply last_None in Hlast.
Qed.

Lemma applyAddresses_bad good network address rest c :
  Forall (fun na => ¬ refused na.1 na.2) good ->
  refused network address ->
  ∃ err c', (∀ c0, applyAddress network address c0 = (c0, Some err)) ∧
            applyAddresses (good ++ (network, address) :: rest) c
              = (c', Some err).
Proof.
  intros Hgood Href.
  destruct (applyAddress_error network address Href) as [err Herr].
  exists err. rewrite applyAddresses_app, (applyAddresses_good good c Hgood).
  simpl. rewrite Herr. eauto.
Qed.

End options.

Section facts.

Context {Handler : Type}.
Variable muxServe : gmap string Handler -> Handler.
Variable h2cNewHandler : Handler -> Handler.
Variable GzipHandler : Handler -> Handler.
Variable reflectionServer : TwirpServer (Handler := Handler).

Implicit Types (s : Server (Handler := Handler)).
Implicit Types (t : TwirpServer (Handler := Handler)).
Implicit Types (env : runEnv (Handler := Handler)).

(** C2, as the code has it.  With M1 added first and M2 second, the handler
    [Run] serves is the middlewares added earlier around M1, M1 around M2,
    and M2 around the mux: the middleware added first is the outer one of
    the two.  A request meets M1 before M2 on the way in and M2 before M1
    on the way out; in particular, on the server [New] returns, h2c is
    outermost, then gzip, then M1, then M2. *)
Theorem first_added_middleware_is_outermost s (M1 M2 : Handler -> Handler) :
  srvHandler (httpServerOf muxServe (AddMiddleware M2 (AddMiddleware M1 s)))
  = alice.Then (chain s) (M1 (M2 (muxServe (mux s)))) ∧
  ∀ options s0,
    New h2cNewHandler GzipHandler reflectionServer options
      = Returns (Some s0, None) ->
    srvHandler (httpServerOf muxServe
                  (AddMiddleware M2 (AddMiddleware M1 s0)))
    = h2cNewHandler (GzipHandler (M1 (M2 (muxServe (mux s0))))).
Proof.
  split.
  - unfold httpServerOf. simpl. by rewrite !Then_Append.
  - intros options s0 Hnew. unfold httpServerOf. simpl.
    rewrite !Then_Append. unfold New in Hnew.
    destruct (applyAll options defaultConfig) as [cfg [err|]];
      [discriminate|].
    unfold RegisterService in Hnew. simpl in Hnew.
    destruct (muxHandle _ _ _) as [m|]; [|discriminate].
    simpl in Hnew. injection Hnew as <-. simpl.
    by rewrite !Then_Append.
Qed.

(** C5. When the options handed to [New] hold, at the top or inside a
    slice such as [WithConfig] makes, an address option with an empty
    network, with the network udp or unixgram, or with an empty address,
    [New] returns no server and an error that wraps the cause; there is
    then no server whose [Run] could bind. *)
Theorem New_rejects_refused_address options network address :
  refused network address ->
  Exists (has_address network address) options ->
  ∃ cause,
    New h2cNewHandler GzipHandler reflectionServer options
      = Returns (None, Some (ErrCreate cause)).
Proof.
  intros Href Hex. unfold New.
  destruct (applyAll_refused network address options defaultConfig Href Hex)
    as (cfg' & cause & ->). eauto.
Qed.

(** *** [Run] *)

Lemma egWait_two (a b : option error) (first : bool) :
  b = None -> egWait (if first then [a; b] else [b; a]) = a.
Proof. intros ->. destruct first, a; reflexivity. Qed.

Lemma Run_bound s env l :
  listen env (network (config s)) (address (config s)) = inl l ->
  (Run muxServe s env).2 = serveTask env (httpServerOf muxServe s) l.
Proof. intros Hl. unfold Run. rewrite Hl. simpl. by apply egWait_two. Qed.

(** C6. The watcher task returns nil whatever [Shutdown] returned.  Once
    the listener is bound, [Run] returns nil when [Serve] ends with
    [http.ErrServerClosed], as it does after [Shutdown], and also when
    [Serve] returns nil, whichever task finishes first.  An error from
    [Run] is the wrapped bind error, or the error [Serve] returned, which
    then is not [http.ErrServerClosed]. *)
Theorem Run_returns_nil_on_shutdown s env :
  let svr := httpServerOf muxServe s in
  watcherTask env svr = None ∧
  (∀ l, listen env (network (config s)) (address (config s)) = inl l ->
        serve env svr l = Some ErrServerClosed ∨ serve env svr l = None ->
        (Run muxServe s env).2 = None) ∧
  (∀ err, (Run muxServe s env).2 = Some err ->
     (∃ cause,
        listen env (network (config s)) (address (config s)) = inr cause ∧
        err = ErrListen (network (config s)) (address (config s)) cause) ∨
     (∃ l,
        listen env (network (config s)) (address (config s)) = inl l ∧
        serve env svr l = Some err ∧ is_ErrServerClosed err = false)).
Proof.
  intros svr. split; [reflexivity|]. split.
  - intros l Hl Hserve. rewrite (Run_bound s env l Hl).
    unfold serveTask. fold svr. by destruct Hserve as [-> | ->].
  - intros err Hrun.
    destruct (listen env (network (config s)) (address (config s)))
      as [l|cause] eqn:Hl.
    + right. exists l. split; [done|].
      rewrite (Run_bound s env l Hl) in Hrun. unfold serveTask in Hrun.
      fold svr in Hrun.
      destruct (serve env svr l) as [e|]; [|discriminate].
      destruct (is_ErrServerClosed e) eqn:He; [discriminate|].
      by injection Hrun as ->.
    + left. exists cause. split; [done|].
      unfold Run in Hrun. rewrite Hl in Hrun. simpl in Hrun.
      by injection Hrun as <-.
Qed.

(** *** [WaitForAddress] *)

Implicit Types (w : waiter) (evs : list event).

(** What held of the waiter or of the events to come still holds with one
    more event in front. *)
Ltac carry :=
  match goal with
  | H : _ ∨ _ ∈ _ |- _ ∨ _ ∈ _ :: _ =>
      destruct H as [H|H]; [by left|right; by right]
  end.

Lemma onTick_Some raw r :
  onTick raw = Some r ->
  ∃ l, raw = Some (VListener l) ∧ r = (Some (Addr l), None).
Proof.
  destruct raw as [[l|]|]; simpl; intros Hr; try discriminate.
  injection Hr as <-. eauto.
Qed.

(** One [select] that returns: the tick case with a listener in the slot,
    or the done case. *)
Lemma selectOnce_returns w preferTick w' r :
  selectOnce w preferTick = (w', Some r) ->
  (∃ l, r = (Some (Addr l), None) ∧ slot w = Some (VListener l) ∧
        tickC w = true) ∨
  (∃ err, r = (None, Some err) ∧ ctxErr w = Some err).
Proof.
  unfold selectOnce.
  destruct (ctxErr w) as [err|], (tickC w), preferTick; intros Hs;
    apply (f_equal snd) in Hs; simpl in Hs;
    try discriminate;
    try (injection Hs as <-; right; by eauto);
    apply onTick_Some in Hs as (l & Hl & ->); left; by eauto.
Qed.

(** One [select] that does not return: it blocked, or it took a tick and
    found no listener.  Either way no tick is left. *)
Lemma selectOnce_again w preferTick w' :
  selectOnce w preferTick = (w', None) ->
  ctxErr w' = ctxErr w ∧ slot w' = slot w ∧ tickC w' = false.
Proof.
  unfold selectOnce.
  destruct (ctxErr w) as [err|] eqn:Hc, (tickC w) eqn:Ht, preferTick;
    intros Hs; try discriminate;
    apply (f_equal fst) in Hs; simpl in Hs; subst w'; simpl; by auto.
Qed.

(** Whatever the loop returns is an address of a listener that was in the
    slot, read after a tick, or the error of the context that was done. *)
Lemma waitLoop_outcome evs w r :
  waitLoop evs w = Some r ->
  (∃ l, r = (Some (Addr l), None) ∧
        (slot w = Some (VListener l) ∨ Store l ∈ evs) ∧
        (tickC w = true ∨ Fire ∈ evs)) ∨
  (∃ err, r = (None, Some err) ∧
          (ctxErr w = Some err ∨ Cancel err ∈ evs)).
Proof.
  revert w. induction evs as [|e evs IH]; intros w Hr; [discriminate|].
  destruct e as [|err|l|preferTick]; simpl in Hr.
  - destruct (IH _ Hr) as [(l & -> & Hs & Ht)|(err & -> & Hc)]; simpl in *;
      [left|right]; eexists; (split; [done|]); [split|]; try carry.
    right. left.
  - destruct (IH _ Hr) as [(l & -> & Hs & Ht)|(err' & -> & Hc)]; simpl in *;
      [left|right]; eexists; (split; [done|]); [split; carry|].
    destruct Hc as [Hc|Hc]; [|right; by right].
    destruct (ctxErr w) as [old|]; simpl in Hc; [by left|].
    injection Hc as ->. right. left.
  - destruct (IH _ Hr) as [(l' & -> & Hs & Ht)|(err & -> & Hc)]; simpl in *;
      [left|right]; eexists; (split; [done|]); [split|]; try carry.
    destruct Hs as [Hs|Hs]; [|right; by right].
    injection Hs as ->. right. left.
  - destruct (selectOnce w preferTick) as [w' [r'|]] eqn:Hsel.
    + injection Hr as ->.
      destruct (selectOnce_returns _ _ _ _ Hsel)
        as [(l & -> & Hs & Ht)|(err & -> & Hc)];
        [left|right]; eexists; (split; [done|]); by auto.
    + destruct (selectOnce_again _ _ _ Hsel) as (Hc' & Hs' & Ht').
      destruct (IH _ Hr) as [(l & -> & Hs & Ht)|(err & -> & Hc)];
        [left|right]; eexists; (split; [done|]).
      * rewrite Hs' in Hs. rewrite Ht' in Ht. split; [carry|].
        destruct Ht as [Ht|Ht]; [discriminate|right; by right].
      * rewrite Hc' in Hc. carry.
Qed.






(** C10. When [net.Listen] fails, [Run] returns the bind error, wrapped
    with the network and the address, and the server is as it was: nothing
    was stored in the listener slot.  If the slot was empty, a
    [WaitForAddress] on that server never returns an address, unless
    another [Run] stores a listener. *)
Theorem Run_bind_failure_stores_nothing s env cause :
  listen env (network (config s)) (address (config s)) = inr cause ->
  Run muxServe s env
    = (s, Some (ErrListen (network (config s)) (address (config s)) cause)) ∧
  (listener s = None ->
   ∀ ctx evs addr err,
     (∀ l, Store l ∉ evs) ->
     WaitForAddress (Run muxServe s env).1 ctx evs ≠ Some (Some addr, err)).
Proof.
  intros Hl. unfold Run. rewrite Hl. split; [done|].
  intros Hslot ctx evs addr err Hstore Hr. simpl in Hr.
  apply waitLoop_outcome in Hr.
  destruct Hr as [(l & _ & Hs & _)|(err' & Heq & _)]; [|discriminate].
  simpl in Hs. destruct Hs as [Hs|Hs]; [congruence|].
  by apply (Hstore l).
Qed.

(** *** The route table and the reflection server *)

Lemma muxHandle_Returns pattern (handler : Handler) m m' :
  muxHandle pattern handler m = Returns m' ->
  pattern ≠ "" ∧ m !! pattern = None ∧ m' = <[pattern := handler]> m.
Proof.
  unfold muxHandle. case_bool_decide; [discriminate|].
  destruct (m !! pattern); [discriminate|]. intros [= <-]. done.
Qed.

Lemma Handle_Returns pattern handler s s' :
  Handle pattern handler s = Returns s' ->
  mux s !! pattern = None ∧
  mux s' = <[pattern := handler]> (mux s) ∧
  reflection s' = reflection s ∧ chain s' = chain s ∧
  listener s' = listener s ∧ config s' = config s.
Proof.
  unfold Handle. destruct (muxHandle _ _ _) as [m|] eqn:Hm; [|discriminate].
  apply muxHandle_Returns in Hm as (_ & Hfree & ->).
  simpl. intros [= <-]. done.
Qed.

Lemma RegisterService_Returns t s s' :
  RegisterService t s = Returns s' ->
  mux s !! PathPrefix t = None ∧
  mux s' = <[PathPrefix t := asHandler t]> (mux s) ∧
  reflection s' = reflection s ++ [t] ∧ chain s' = chain s ∧
  listener s' = listener s ∧ config s' = config s.
Proof.
  unfold RegisterService.
  destruct (muxHandle _ _ _) as [m|] eqn:Hm; [|discriminate].
  apply muxHandle_Returns in Hm as (_ & Hfree & ->).
  simpl. intros [= <-]. done.
Qed.

Lemma Run_keeps_routes s env :
  mux (Run muxServe s env).1 = mux s ∧
  reflection (Run muxServe s env).1 = reflection s.
Proof. unfold Run. by destruct (listen env _ _). Qed.

Lemma reachable_consistent s :
  reachable muxServe h2cNewHandler GzipHandler reflectionServer s ->
  consistent s.
Proof.
  induction 1 as [options s Hnew|pattern handler s s' _ IH Hh
                 |t s s' _ IH Hr|middleware s _ IH|env s _ IH].
  - unfold New in Hnew.
    destruct (applyAll options defaultConfig) as [cfg [err|]];
      [discriminate|].
    destruct (RegisterService reflectionServer _) as [s1|] eqn:Hr;
      [|discriminate].
    apply RegisterService_Returns in Hr as (_ & Hm & Hrefl & _).
    simpl in Hnew. injection Hnew as <-.
    intros t Ht. simpl in *. rewrite Hrefl in Ht. rewrite Hm.
    apply list_elem_of_singleton in Ht as ->. apply lookup_insert_eq.
  - apply Handle_Returns in Hh as (Hfree & Hm & Hrefl & _).
    intros t Ht. rewrite Hrefl in Ht. rewrite Hm.
    rewrite lookup_insert_ne; [by apply IH|].
    intros Heq. rewrite Heq, (IH t Ht) in Hfree. discriminate.
  - apply RegisterService_Returns in Hr as (Hfree & Hm & Hrefl & _).
    intros t' Ht'. rewrite Hrefl in Ht'. rewrite Hm.
    apply elem_of_app in Ht' as [Ht'|Ht'].
    + rewrite lookup_insert_ne; [by apply IH|].
      intros Heq. rewrite Heq, (IH t' Ht') in Hfree. discriminate.
    + apply list_elem_of_singleton in Ht' as ->. apply lookup_insert_eq.
  - exact IH.
  - destruct (Run_keeps_routes s env) as [Hm Hrefl].
    intros t Ht. rewrite Hrefl in Ht. rewrite Hm. by apply IH.
Qed.

(** C9, as the code has it.  [RegisterService] adds the service's handler
    to the route table at its path prefix and tells the reflection server
    of the service; [Handle] adds the handler to the route table and
    leaves the reflection server as it is.  In every server reached from
    [New], each service the reflection server knows is in the route table
    at its prefix. *)
Theorem RegisterService_informs_reflection s :
  reachable muxServe h2cNewHandler GzipHandler reflectionServer s ->
  consistent s ∧
  (∀ t s', RegisterService t s = Returns s' ->
     mux s' = <[PathPrefix t := asHandler t]> (mux s) ∧
     reflection s' = reflection s ++ [t] ∧ consistent s') ∧
  (∀ pattern handler s', Handle pattern handler s = Returns s' ->
     mux s' = <[pattern := handler]> (mux s) ∧
     reflection s' = reflection s ∧ consistent s').
Proof.
  intros Hreach. split; [by apply reachable_consistent|]. split.
  - intros t s' Hr.
    pose proof (reach_RegisterService _ _ _ _ _ _ _ Hreach Hr) as Hreach'.
    apply RegisterService_Returns in Hr as (_ & Hm & Hrefl & _).
    split; [done|]. split; [done|]. by apply reachable_consistent.
  - intros pattern handler s' Hh.
    pose proof (reach_Handle _ _ _ _ _ _ _ _ Hreach Hh) as Hreach'.
    apply Handle_Returns in Hh as (_ & Hm & Hrefl & _).
    split; [done|]. split; [done|]. by apply reachable_consistent.
Qed.

(** ** More on construction *)

Lemma New_configured options cfg :
  applyAll options defaultConfig = (cfg, None) ->
  PathPrefix reflectionServer ≠ "" ->
  New h2cNewHandler GzipHandler reflectionServer options =
    Returns (Some {| chain := alice.New [h2cNewHandler; GzipHandler];
                     listener := None;
                     mux := {[PathPrefix reflectionServer
                                := asHandler reflectionServer]};
                     reflection := [reflectionServer];
                     config := cfg |}, None).
Proof.
  intros Hcfg Hprefix. unfold New. rewrite Hcfg.
  unfold RegisterService, muxHandle. simpl.
  rewrite bool_decide_eq_false_2 by done. rewrite lookup_empty. simpl.
  unfold AddMiddleware, alice.Append, alice.New. simpl.
  by rewrite insert_empty.
Qed.

(** X10. The error of [New] is the one of the first address option that is
    refused, in the order the options and the slices inside them are gone
    through, wrapped once; what comes after that option is not looked at. *)
Theorem first_refused_address_is_reported options good network address rest :
  allAddresses options = good ++ (network, address) :: rest ->
  Forall (fun na => ¬ refused na.1 na.2) good ->
  refused network address ->
  ∃ err, (∀ c, applyAddress network address c = (c, Some err)) ∧
         New h2cNewHandler GzipHandler reflectionServer options
           = Returns (None, Some (ErrCreate err)).
Proof.
  intros Hall Hgood Href.
  destruct (applyAddresses_bad good network address rest defaultConfig
              Hgood Href) as (err & c' & Herr & Happly).
  exists err. split; [done|]. unfold New.
  by rewrite applyAll_addresses, Hall, Happly.
Qed.

(** X11. When no address option is refused, [New] returns a server whose
    configuration is the last address option given, or tcp on 127.0.0.1:0
    when there is none; it has no listener yet, the reflection service is
    its only route and the only service reflection knows, and its chain is
    h2c then gzip. *)
Theorem last_address_option_wins options :
  Forall (fun na => ¬ refused na.1 na.2) (allAddresses options) ->
  PathPrefix reflectionServer ≠ "" ->
  ∃ s, New h2cNewHandler GzipHandler reflectionServer options
         = Returns (Some s, None) ∧
       config s = from_option
                    (fun na => {| network := na.1; address := na.2 |})
                    defaultConfig (last (allAddresses options)) ∧
       listener s = None ∧
       mux s = {[PathPrefix reflectionServer := asHandler reflectionServer]} ∧
       reflection s = [reflectionServer] ∧
       alice.constructors (chain s) = [h2cNewHandler; GzipHandler].
Proof.
  intros Hgood Hprefix. eexists. split.
  - apply New_configured; [|done].
    by rewrite applyAll_addresses, (applyAddresses_good _ _ Hgood).
  - done.
Qed.

(** X12. [Config.Build]: an empty address is refused with the wrapped
    "address must not be empty" error; any other address gives a server on
    tcp at that address. *)
Theorem Build_outcome (c : Config) :
  (Address c = "" ->
   Build h2cNewHandler GzipHandler reflectionServer c
     = Returns (None, Some (ErrCreate ErrAddressEmpty))) ∧
  (Address c ≠ "" -> PathPrefix reflectionServer ≠ "" ->
   ∃ s, Build h2cNewHandler GzipHandler reflectionServer c
          = Returns (Some s, None) ∧
        config s = {| network := "tcp"; address := Address c |}).
Proof.
  split.
  - intros Hempty. unfold Build, New, WithConfig. simpl.
    unfold applyAddress. simpl. by rewrite Hempty.
  - intros Hne Hprefix. eexists. split.
    + unfold Build. apply New_configured; [|done].
      unfold WithConfig. simpl. unfold applyAddress. simpl.
      by rewrite bool_decide_eq_false_2.
    + reflexivity.
Qed.

(** ** More on routes and middlewares *)

Lemma Run_keeps s env :
  chain (Run muxServe s env).1 = chain s ∧
  mux (Run muxServe s env).1 = mux s ∧
  reflection (Run muxServe s env).1 = reflection s ∧
  config (Run muxServe s env).1 = config s.
Proof. unfold Run. by destruct (listen env _ _). Qed.

(** X13. Setup only ever adds: in every server got from [s0] by [Handle],
    [RegisterService], [AddMiddleware] and [Run], each route of [s0] is
    still there with its handler, the services reflection knew and the
    middlewares of the chain are still there in front, in their order, and
    the configuration is the same. *)
Theorem setup_only_adds s0 s :
  after muxServe s0 s ->
  (∀ pattern handler, mux s0 !! pattern = Some handler ->
                      mux s !! pattern = Some handler) ∧
  reflection s0 `prefix_of` reflection s ∧
  alice.constructors (chain s0) `prefix_of` alice.constructors (chain s) ∧
  config s = config s0.
Proof.
  induction 1 as [|pattern handler s s' _ IH Hh|t s s' _ IH Hr
                 |middleware s _ IH|env s _ IH].
  - done.
  - destruct IH as (Hm & Hrefl & Hch & Hcfg).
    apply Handle_Returns in Hh as (Hfree & -> & -> & -> & _ & ->).
    split; [|done]. intros p h Hp. rewrite lookup_insert_ne; [by apply Hm|].
    intros <-. rewrite (Hm _ _ Hp) in Hfree. discriminate.
  - destruct IH as (Hm & Hrefl & Hch & Hcfg).
    apply RegisterService_Returns in Hr as (Hfree & -> & -> & -> & _ & ->).
    split; [|split; [|done]].
    + intros p h Hp. rewrite lookup_insert_ne; [by apply Hm|].
      intros Heq. rewrite Heq, (Hm _ _ Hp) in Hfree. discriminate.
    + by apply prefix_app_r.
  - destruct IH as (Hm & Hrefl & Hch & Hcfg). simpl.
    split; [done|]. split; [done|]. split; [|done]. by apply prefix_app_r.
  - destruct IH as (Hm & Hrefl & Hch & Hcfg).
    destruct (Run_keeps s env) as (-> & -> & -> & ->). done.
Qed.

Lemma reachable_knows_reflection s :
  reachable muxServe h2cNewHandler GzipHandler reflectionServer s ->
  reflectionServer ∈ reflection s.
Proof.
  induction 1 as [options s Hnew|pattern handler s s' _ IH Hh
                 |t s s' _ IH Hr|middleware s _ IH|env s _ IH].
  - unfold New in Hnew.
    destruct (applyAll options defaultConfig) as [cfg [err|]];
      [discriminate|].
    destruct (RegisterService reflectionServer _) as [s1|] eqn:Hr;
      [|discriminate].
    apply RegisterService_Returns in Hr as (_ & _ & Hrefl & _).
    simpl in Hnew. injection Hnew as <-. simpl. rewrite Hrefl. left.
  - apply Handle_Returns in Hh as (_ & _ & -> & _). done.
  - apply RegisterService_Returns in Hr as (_ & _ & -> & _).
    apply elem_of_app. by left.
  - done.
  - by destruct (Run_keeps s env) as (_ & _ & -> & _).
Qed.

(** X14. On every server reached from [New] the path prefix of the reflection
    service is taken: [Handle] with that pattern panics whatever the
    handler, and so does [RegisterService] for a service with that prefix,
    such as a second reflection server. *)
Theorem reflection_prefix_is_taken s :
  reachable muxServe h2cNewHandler GzipHandler reflectionServer s ->
  (∀ handler, Handle (PathPrefix reflectionServer) handler s = Panics) ∧
  (∀ t, PathPrefix t = PathPrefix reflectionServer ->
        RegisterService t s = Panics).
Proof.
  intros Hreach.
  pose proof (reachable_consistent s Hreach _
                (reachable_knows_reflection s Hreach)) as Hm.
  split.
  - intros handler. unfold Handle, muxHandle. rewrite Hm.
    by case_bool_decide.
  - intros t Ht. unfold RegisterService, muxHandle. rewrite Ht, Hm.
    by case_bool_decide.
Qed.

Lemma addAll_chain (ms : list (Handler -> Handler)) s :
  chain (addAll ms s)
    = alice.mkChain (alice.constructors (chain s) ++ ms) ∧
  mux (addAll ms s) = mux s.
Proof.
  revert s. induction ms as [|m ms IH]; intros s; simpl.
  - rewrite app_nil_r. by destruct (chain s).
  - destruct (IH (AddMiddleware m s)) as [-> ->]. simpl.
    by rewrite <- app_assoc.
Qed.

(** X15. Middlewares added one after the other nest in that order around the
    mux, inside the middlewares that were in the chain before: the one
    added first is the outermost of them, the one added last wraps the
    mux. *)
Theorem middlewares_nest_in_order (ms : list (Handler -> Handler)) s :
  srvHandler (httpServerOf muxServe (addAll ms s))
  = alice.Then (chain s) (foldr (fun m h => m h) (muxServe (mux s)) ms).
Proof.
  unfold httpServerOf. simpl.
  destruct (addAll_chain ms s) as [-> ->].
  rewrite !Then_foldr. simpl. by rewrite foldr_app.
Qed.

(** ** More on address discovery *)

Lemma waitLoop_quiet waiting evs w :
  ctxErr w = None -> slot w = None ->
  Forall (fun e => quiet e = true) waiting ->
  ∃ w', waitLoop (waiting ++ evs) w = waitLoop evs w' ∧
        ctxErr w' = None ∧ slot w' = None.
Proof.
  intros Hc Hs Hq. revert w Hc Hs.
  induction Hq as [|e waiting He _ IH]; intros w Hc Hs; [by eauto|].
  destruct e as [| | |preferTick]; try discriminate He; simpl.
  - by apply IH.
  - unfold selectOnce. rewrite Hc, Hs. simpl.
    destruct (tickC w); by apply IH.
Qed.

(** X16. Address discovery.  When [Run] has bound its listener, a
    [WaitForAddress] on the server with a live context returns the address
    of that very listener at its first tick; and a waiter that was there
    before, through any number of ticks and turns with nothing published
    and nobody cancelling, returns it at the first tick after the listener
    is stored. *)
Theorem address_is_discovered s env l :
  listen env (network (config s)) (address (config s)) = inl l ->
  (∀ preferTick evs,
     WaitForAddress (Run muxServe s env).1 None
       (Fire :: Select preferTick :: evs) = Some (Some (Addr l), None)) ∧
  (∀ waiting preferTick evs,
     listener s = None -> Forall (fun e => quiet e = true) waiting ->
     WaitForAddress s None
       (waiting ++ Store l :: Fire :: Select preferTick :: evs)
       = Some (Some (Addr l), None)).
Proof.
  intros Hl. split.
  - intros p evs. unfold Run. rewrite Hl. reflexivity.
  - intros waiting p evs Hs Hq. unfold WaitForAddress.
    destruct (waitLoop_quiet waiting
                (Store l :: Fire :: Select p :: evs)
                {| ctxErr := None; tickC := false; slot := listener s |}
                eq_refl Hs Hq) as (w' & -> & Hc & _).
    simpl. unfold selectOnce. simpl. by rewrite Hc.
Qed.

End facts.

End HttpServerFacts.

(** ** The server at work *)

Module HttpServerRuns.
Import HttpServer Scenario.

(** What a request sees on the server with M1 added first and M2 second. *)
Lemma twoAdded_serves :
  srvHandler (httpServerOf muxServe twoAdded) "/" =
    ["before h2c"; "before gzip"; "before M1"; "before M2"; "404";
     "after M2"; "after M1"; "after gzip"; "after h2c"].
Proof. by vm_compute. Qed.

(** C2 as the claim words it fails here: M2's mark does not come before
    M1's on the way in, nor M1's before M2's on the way out. *)
Lemma last_added_is_not_outermost :
  let events := srvHandler (httpServerOf muxServe twoAdded) "/" in
  ¬ (precedes "before M2" "before M1" events = true ∧
     precedes "after M1" "after M2" events = true).
Proof. intros events [H _]. vm_compute in H. discriminate H. Qed.

Lemma first_added_middleware_is_outermost_witness :
  New [] = Returns (Some fresh, None) ∧
  srvHandler (httpServerOf muxServe twoAdded)
  = marking "h2c" (marking "gzip"
      (marking "M1" (marking "M2" (muxServe (mux fresh))))).
Proof.
  assert (Hnew : New [] = Returns (Some fresh, None)) by reflexivity.
  split; [exact Hnew|].
  exact (proj2 (HttpServerFacts.first_added_middleware_is_outermost muxServe
                  (marking "h2c") (marking "gzip") reflectionServer
                  fresh (marking "M1") (marking "M2")) [] fresh Hnew).
Defined.

(** The two refusals, run. *)
Lemma New_overUdp :
  New overUdp = Returns (None, Some (ErrCreate (ErrUnsupportedNetwork "udp"))).
Proof. reflexivity. Qed.

Lemma New_noAddress :
  New noAddress = Returns (None, Some (ErrCreate ErrAddressEmpty)).
Proof. reflexivity. Qed.

Lemma New_rejects_refused_address_witness :
  refused "tcp" "" ∧ Exists (has_address "tcp" "") noAddress ∧
  ∃ cause, New noAddress = Returns (None, Some (ErrCreate cause)).
Proof.
  assert (Href : refused "tcp" "") by (do 3 right; reflexivity).
  assert (Hex : Exists (has_address "tcp" "") noAddress).
  { apply Exists_cons_tl, Exists_cons_hd. simpl. left. split; reflexivity. }
  split; [exact Href|]. split; [exact Hex|].
  exact (HttpServerFacts.New_rejects_refused_address (marking "h2c")
           (marking "gzip") reflectionServer noAddress "tcp" "" Href Hex).
Defined.

(** [Serve] ends with [http.ErrServerClosed] and [Shutdown] fails: [Run]
    returns nil. *)
Lemma Run_returns_nil_on_shutdown_witness :
  listen graceful (network (config fresh)) (address (config fresh))
    = inl (mkListener "127.0.0.1:0") ∧
  shutdown graceful (httpServerOf muxServe fresh) = Some ErrDeadlineExceeded ∧
  (Run muxServe fresh graceful).2 = None.
Proof.
  split; [reflexivity|]. split; [reflexivity|].
  exact (proj1 (proj2 (HttpServerFacts.Run_returns_nil_on_shutdown muxServe
                         fresh graceful))
           (mkListener "127.0.0.1:0") eq_refl (or_introl eq_refl)).
Defined.


(** C9 as the claim words it fails for [Handle]: the application registers
    the todo service with [Handle], the route table has it, and the
    reflection server still knows only itself. *)
Lemma Handle_does_not_inform_reflection :
  ∃ s', Handle (PathPrefix todoService) todoHandler fresh = Returns s' ∧
        mux s' !! PathPrefix todoService = Some todoHandler ∧
        reflection s' = [reflectionServer] ∧
        ¬ ∃ t, t ∈ reflection s' ∧ PathPrefix t = PathPrefix todoService.
Proof.
  eexists. split; [reflexivity|]. split; [reflexivity|].
  split; [reflexivity|]. intros (t & Ht & Hp). simpl in Ht.
  apply list_elem_of_singleton in Ht as ->. discriminate Hp.
Qed.

Lemma RegisterService_informs_reflection_witness :
  reachable muxServe (marking "h2c") (marking "gzip") reflectionServer fresh ∧
  consistent fresh ∧
  ∃ s', RegisterService todoService fresh = Returns s' ∧
        reflection s' = [reflectionServer; todoService] ∧ consistent s'.
Proof.
  assert (Hreach : reachable muxServe (marking "h2c") (marking "gzip")
                     reflectionServer fresh)
    by exact (reach_New muxServe (marking "h2c") (marking "gzip")
                reflectionServer [] fresh eq_refl).
  destruct (HttpServerFacts.RegisterService_informs_reflection muxServe
              (marking "h2c") (marking "gzip") reflectionServer fresh Hreach)
    as (Hc & Hreg & _).
  split; [exact Hreach|]. split; [exact Hc|].
  eexists. split; [reflexivity|].
  destruct (Hreg todoService _ eq_refl) as (_ & Hrefl & Hc').
  split; [exact Hrefl|exact Hc'].
Defined.

(** The port is taken: [Run] fails and a waiter sees no address. *)
Lemma Run_bind_failure_stores_nothing_witness :
  listen portTaken (network (config fresh)) (address (config fresh))
    = inr (ErrOther "address already in use") ∧
  Run muxServe fresh portTaken
    = (fresh, Some (ErrListen "tcp" "127.0.0.1:0"
                      (ErrOther "address already in use"))) ∧
  WaitForAddress (Run muxServe fresh portTaken).1 None
    [Fire; Select true; Cancel ErrCanceled; Fire; Select true]
    ≠ Some (Some "127.0.0.1:0", None).
Proof.
  split; [reflexivity|].
  destruct (HttpServerFacts.Run_bind_failure_stores_nothing muxServe fresh
              portTaken (ErrOther "address already in use") eq_refl)
    as [Hrun Hwait].
  split; [exact Hrun|].
  apply (Hwait eq_refl). intros l Hin.
  repeat (apply elem_of_cons in Hin as [Hin|Hin]; [discriminate Hin|]).
  by apply elem_of_nil in Hin.
Defined.

(** ** The other properties, run *)

Import Cases.

Lemma first_refused_address_is_reported_witness :
  allAddresses twoRefused = [("tcp", ":8080")] ++ ("udp", ":53") :: [("tcp", "")] ∧
  refused "udp" ":53" ∧
  ∃ err, applyAddress "udp" ":53" defaultConfig = (defaultConfig, Some err) ∧
         New twoRefused = Returns (None, Some (ErrCreate err)).
Proof.
  assert (Hgood : Forall (fun na : string * string => ¬ refused na.1 na.2)
                    [("tcp", ":8080")]).
  { repeat constructor. intros [H|[H|[H|H]]]; discriminate H. }
  assert (Href : refused "udp" ":53") by (right; left; reflexivity).
  split; [reflexivity|]. split; [exact Href|].
  destruct (HttpServerFacts.first_refused_address_is_reported (marking "h2c")
              (marking "gzip") reflectionServer twoRefused
              [("tcp", ":8080")] "udp" ":53" [("tcp", "")] eq_refl Hgood Href)
    as (err & Happly & Hnew).
  exists err. split; [exact (Happly defaultConfig)|exact Hnew].
Defined.

Lemma last_address_option_wins_witness :
  allAddresses twoAccepted = [("unix", "/tmp/todo.sock"); ("tcp", ":9090")] ∧
  ∃ s, New twoAccepted = Returns (Some s, None) ∧
       config s = {| network := "tcp"; address := ":9090" |} ∧
       listener s = None ∧
       reflection s = [reflectionServer].
Proof.
  assert (Hgood : Forall (fun na : string * string => ¬ refused na.1 na.2)
                    (allAddresses twoAccepted)).
  { repeat constructor; intros [H|[H|[H|H]]]; discriminate H. }
  assert (Hprefix : PathPrefix reflectionServer ≠ "") by discriminate.
  split; [reflexivity|].
  destruct (HttpServerFacts.last_address_option_wins (marking "h2c")
              (marking "gzip") reflectionServer twoAccepted Hgood Hprefix)
    as (s & Hnew & Hconfig & Hlistener & _ & Hreflection & _).
  exists s. split; [exact Hnew|]. split; [exact Hconfig|].
  split; [exact Hlistener|exact Hreflection].
Defined.

Lemma Build_outcome_witness :
  Build (marking "h2c") (marking "gzip") reflectionServer (mkConfig "")
    = Returns (None, Some (ErrCreate ErrAddressEmpty)) ∧
  ∃ s, Build (marking "h2c") (marking "gzip") reflectionServer
         (mkConfig ":8080") = Returns (Some s, None) ∧
       config s = {| network := "tcp"; address := ":8080" |}.
Proof.
  assert (Haddress : Address (mkConfig ":8080") ≠ "") by discriminate.
  assert (Hprefix : PathPrefix reflectionServer ≠ "") by discriminate.
  split.
  - exact (proj1 (HttpServerFacts.Build_outcome (marking "h2c")
                    (marking "gzip") reflectionServer (mkConfig "")) eq_refl).
  - exact (proj2 (HttpServerFacts.Build_outcome (marking "h2c")
                    (marking "gzip") reflectionServer (mkConfig ":8080"))
             Haddress Hprefix).
Defined.

(** The server with the todo service registered, two middlewares added
    and a [Run] behind it still has what [New] gave it. *)
Lemma setup_only_adds_witness :
  let s := (Run muxServe
              (AddMiddleware (marking "M2")
                 (AddMiddleware (marking "M1") registered)) graceful).1 in
  RegisterService todoService fresh = Returns registered ∧
  mux s !! "/twirp/reflection/" = mux fresh !! "/twirp/reflection/" ∧
  reflection fresh `prefix_of` reflection s ∧
  alice.constructors (chain fresh) `prefix_of` alice.constructors (chain s) ∧
  config s = config fresh.
Proof.
  intros s.
  assert (Hreg : RegisterService todoService fresh = Returns registered)
    by reflexivity.
  assert (Hafter : after muxServe fresh s).
  { apply after_Run, after_AddMiddleware, after_AddMiddleware.
    exact (after_RegisterService muxServe fresh todoService fresh registered
             (after_here muxServe fresh) Hreg). }
  destruct (HttpServerFacts.setup_only_adds muxServe fresh s Hafter)
    as (H1 & H2 & H3 & H4).
  split; [exact Hreg|].
  split; [|split; [exact H2|split; [exact H3|exact H4]]].
  exact (H1 "/twirp/reflection/" _ eq_refl).
Defined.

(** The application cannot put a second reflection service, or anything
    else, where the reflection service of [New] is. *)
Lemma reflection_prefix_is_taken_witness :
  reachable muxServe (marking "h2c") (marking "gzip") reflectionServer fresh ∧
  Handle "/twirp/reflection/" todoHandler fresh = Panics ∧
  RegisterService reflectionServer fresh = Panics.
Proof.
  assert (Hreach : reachable muxServe (marking "h2c") (marking "gzip")
                     reflectionServer fresh)
    by exact (reach_New muxServe (marking "h2c") (marking "gzip")
                reflectionServer [] fresh eq_refl).
  destruct (HttpServerFacts.reflection_prefix_is_taken muxServe
              (marking "h2c") (marking "gzip") reflectionServer fresh Hreach)
    as [Hhandle Hregister].
  split; [exact Hreach|]. split.
  - exact (Hhandle todoHandler).
  - exact (Hregister reflectionServer eq_refl).
Defined.

(** A waiter that started before [Run] had bound the listener, and one
    that came after. *)
Lemma address_is_discovered_witness :
  listen graceful (network (config fresh)) (address (config fresh))
    = inl (mkListener "127.0.0.1:0") ∧
  WaitForAddress (Run muxServe fresh graceful).1 None [Fire; Select false]
    = Some (Some "127.0.0.1:0", None) ∧
  WaitForAddress fresh None
    ([Fire; Select true; Select false]
       ++ [Store (mkListener "127.0.0.1:0"); Fire; Select true])
    = Some (Some "127.0.0.1:0", None).
Proof.
  assert (Hquiet : Forall (fun e => quiet e = true)
                     [Fire; Select true; Select false])
    by (repeat constructor).
  destruct (HttpServerFacts.address_is_discovered muxServe fresh graceful
              (mkListener "127.0.0.1:0") eq_refl) as [Hlate Hearly].
  split; [reflexivity|]. split.
  - exact (Hlate false []).
  - exact (Hearly [Fire; Select true; Select false] true [] eq_refl Hquiet).
Defined.

End HttpServerRuns.

(** * Properties of package metadata *)

Module MetadataFacts.
Import Metadata.

Lemma Version_set build g :
  Config.Version g ≠ "" -> Version build g = (g, Config.Version g).
Proof. intros Hv. unfold Version. by rewrite bool_decide_eq_true_2. Qed.

Lemma Versions_set builds g :
  Config.Version g ≠ "" ->
  Versions builds g = (g, replicate (length builds) (Config.Version g)).
Proof.
  intros Hv. induction builds as [|build builds IH]; [done|].
  simpl. by rewrite (Version_set build g Hv), IH.
Qed.


(** X18. What [FromConfig] stores is what is read back: the service name always,
    and the version when it is not empty, without a look at the build
    information; [Reset] leaves an empty service name. *)
Theorem FromConfig_is_read_back config g builds :
  Service (FromConfig config g) = (config, Config.Service config) ∧
  (Config.Version config ≠ "" ->
   Versions builds (FromConfig config g)
     = (config, replicate (length builds) (Config.Version config))) ∧
  (Service (Reset (FromConfig config g))).2 = "".
Proof.
  split; [done|]. split; [|done]. intros Hv. by apply Versions_set.
Qed.

End MetadataFacts.

(** * Properties of package stackdriver *)

Module StackdriverFacts.
Import Stackdriver.

Lemma hasKey_elem key fields :
  hasKey key fields = true ↔ key ∈ Key <$> fields.
Proof.
  unfold hasKey. induction fields as [|f fields IH]; simpl.
  - split; [discriminate|]. intros H. by apply elem_of_nil in H.
  - rewrite orb_true_iff, IH, elem_of_cons, bool_decide_eq_true.
    split; intros [?|?]; auto.
Qed.

Lemma hasKey_snoc key fields f :
  hasKey key (fields ++ [f]) = hasKey key fields || bool_decide (Key f = key).
Proof.
  unfold hasKey. rewrite existsb_app. simpl. by rewrite orb_false_r.
Qed.

(** X19. The seven levels of zap have seven different severities, none of them
    empty; any other level is written as the empty string. *)
Theorem severities (l1 l2 : Z) (enc : list string) :
  ((-1 ≤ l1 ≤ 5)%Z -> (-1 ≤ l2 ≤ 5)%Z ->
   encodeLevel l1 enc = encodeLevel l2 enc -> l1 = l2) ∧
  ((-1 ≤ l1 ≤ 5)%Z -> encodeLevel l1 enc ≠ enc ++ [""]) ∧
  ((l1 < -1 ∨ 5 < l1)%Z -> encodeLevel l1 enc = enc ++ [""]).
Proof.
  unfold encodeLevel.
  assert (Hin : ∀ l, (-1 ≤ l ≤ 5)%Z ->
            l = (-1)%Z ∨ l = 0%Z ∨ l = 1%Z ∨ l = 2%Z ∨ l = 3%Z ∨ l = 4%Z
            ∨ l = 5%Z) by (intros; lia).
  split; [|split].
  - intros H1 H2 Heq. apply app_inv_head in Heq.
    destruct (Hin l1 H1) as [->|[->|[->|[->|[->|[->| ->]]]]]];
      destruct (Hin l2 H2) as [->|[->|[->|[->|[->|[->| ->]]]]]];
      vm_compute in Heq; congruence.
  - intros H1 Heq. apply app_inv_head in Heq.
    destruct (Hin l1 H1) as [->|[->|[->|[->|[->|[->| ->]]]]]];
      vm_compute in Heq; congruence.
  - intros Hout. f_equal. f_equal.
    unfold logLevelSeverity, DebugLevel, InfoLevel, WarnLevel, ErrorLevel,
      DPanicLevel, PanicLevel, FatalLevel. simpl.
    rewrite !lookup_insert_ne by lia. by rewrite lookup_empty.
Qed.

Lemma addNonEmpty_app key s enc :
  addNonEmpty key s enc
    = enc ++ (if bool_decide (s ≠ "") then [(key, EncString s)] else []).
Proof. unfold addNonEmpty. case_bool_decide; [done|by rewrite app_nil_r]. Qed.

Lemma if_snoc {A} (b : bool) (l : list A) x :
  (if b then l ++ [x] else l) = l ++ (if b then [x] else []).
Proof. destruct b; [done|by rewrite app_nil_r]. Qed.

(** Goals about an explicit list of entries: something is in it, a key is
    not among its keys, its keys are all different. *)
Ltac in_entries :=
  repeat first [apply list_elem_of_here | apply list_elem_of_further].

Ltac decide_keys :=
  match goal with
  | |- NoDup _ => apply (bool_decide_unpack _); vm_compute; exact I
  | |- _ ∉ _ =>
      let H := fresh in
      intros H; apply (bool_decide_pack _) in H; vm_compute in H; exact H
  end.

(** A key is in none of the pieces a list of keys is put together from. *)
Ltac in_no_piece :=
  rewrite ?fmap_app, ?not_elem_of_app;
  repeat match goal with |- _ ∧ _ => split end;
  try match goal with
      | |- context [bool_decide ?P] => destruct (bool_decide P)
      end; simpl; decide_keys.

(** An entry is in one of the pieces. *)
Ltac in_some_piece :=
  rewrite ?elem_of_app;
  repeat first [ right; by in_entries | left ]; by in_entries.

(** X20. What [HTTPRequest.MarshalLogObject] writes: never an error and never a
    key twice; the URL, the request size and the response size always; the
    method, user agent, remote and server address, protocol, referer and
    latency exactly when they are not empty; and the status exactly when it
    is zero, so a status other than zero is not written. *)
Theorem HTTPRequest_fields (req : HTTPRequest) :
  let r := HTTPRequest_MarshalLogObject req [] in
  let optional key s :=
    if bool_decide (s ≠ "") then (key, EncString s) ∈ r.1
    else key ∉ r.1.*1 in
  r.2 = None ∧ NoDup r.1.*1 ∧
  ("requestUrl", EncString (RequestURL req)) ∈ r.1 ∧
  ("requestSize", EncString (RequestSize req)) ∈ r.1 ∧
  ("responseSize", EncString (ResponseSize req)) ∈ r.1 ∧
  (if bool_decide (Status req = 0%Z) then ("status", EncInt 0) ∈ r.1
   else "status" ∉ r.1.*1) ∧
  optional "requestMethod" (RequestMethod req) ∧
  optional "userAgent" (UserAgent req) ∧
  optional "remoteIp" (RemoteIP req) ∧
  optional "serverIp" (ServerIP req) ∧
  optional "protocol" (Protocol req) ∧
  optional "referer" (Referer req) ∧
  optional "latency" (Latency req).
Proof.
  destruct req as [method url size latency rsize agent remote server referer
                     protocol status].
  unfold HTTPRequest_MarshalLogObject. simpl.
  rewrite !addNonEmpty_app, if_snoc. simpl.
  split; [done|]. split.
  { repeat case_bool_decide; decide_keys. }
  repeat split;
    try (case_bool_decide; subst; [in_some_piece|in_no_piece]);
    in_some_piece.
Qed.

(** ** The wrapping core *)

Section core.

Variable FuncForPC : Z -> option string.
Context {C W Err : Type}.
Variable coreWith : C -> list Field -> C.
Variable coreWrite : W -> C -> Entry -> list Field -> W * option Err.

Implicit Types (c : Core (C := C)) (ent : Entry) (fields : list Field).

Lemma hasKey_false key fields :
  hasKey key fields = false -> key ∉ Key <$> fields.
Proof.
  intros Hf Hin. apply hasKey_elem in Hin. congruence.
Qed.

Lemma hasKey_app_other key fields more :
  Forall (fun f => Key f ≠ key) more ->
  hasKey key (fields ++ more) = hasKey key fields.
Proof.
  intros Hne. unfold hasKey. rewrite existsb_app.
  replace (existsb _ more) with false; [apply orb_false_r|].
  symmetry. induction Hne as [|f more Hf _ IH]; [done|]. simpl.
  by rewrite IH, bool_decide_eq_false_2.
Qed.

(** What [Write] adds for an entry to the fields it is given. *)
Lemma writeFields_shape c ent fields :
  writeFields FuncForPC c ent fields =
  fields
  ++ (if hasKey serviceContextKey fields then []
      else [mkField serviceContextKey (MService (Some (service c)))])
  ++ (if LevelEnabled ErrorLevel (Level ent) && Defined (Caller ent)
         && negb (hasKey sourceKey fields)
      then [SourceLocation FuncForPC (PC (Caller ent))
              (caller_File (Caller ent)) (caller_Line (Caller ent)) true]
      else [])
  ++ (if LevelEnabled ErrorLevel (Level ent) && Defined (Caller ent)
         && negb (hasKey contextKey fields)
      then ErrorReport FuncForPC (PC (Caller ent))
             (caller_File (Caller ent)) (caller_Line (Caller ent)) true
      else []).
Proof.
  unfold writeFields, withErrorReport, withSourceLocation, withServiceContext.
  set (svc := mkField serviceContextKey (MService (Some (service c)))).
  set (src := SourceLocation _ _ _ _ _). set (rep := ErrorReport _ _ _ _ _).
  assert (Hsrc : hasKey sourceKey
                   (if hasKey serviceContextKey fields then fields
                    else fields ++ [svc]) = hasKey sourceKey fields).
  { destruct (hasKey serviceContextKey fields); [done|].
    apply hasKey_app_other. by repeat constructor. }
  destruct (LevelEnabled ErrorLevel (Level ent)); simpl.
  - rewrite Hsrc.
    assert (Hctx : ∀ more, Forall (fun f => Key f ≠ contextKey) more ->
              hasKey contextKey
                ((if hasKey serviceContextKey fields then fields
                  else fields ++ [svc]) ++ more) = hasKey contextKey fields).
    { intros more Hmore. rewrite hasKey_app_other by done.
      destruct (hasKey serviceContextKey fields); [done|].
      apply hasKey_app_other. by repeat constructor. }
    destruct (Defined (Caller ent)); simpl.
    + destruct (hasKey sourceKey fields); simpl.
      * rewrite <- (app_nil_r (if hasKey serviceContextKey fields then _ else _)) at 1.
        rewrite (Hctx [] (Forall_nil_2 _)).
        destruct (hasKey contextKey fields), (hasKey serviceContextKey fields);
          simpl; by rewrite <- ?app_assoc, ?app_nil_r.
      * rewrite (Hctx [src]) by by repeat constructor.
        destruct (hasKey contextKey fields), (hasKey serviceContextKey fields);
          simpl; by rewrite <- ?app_assoc, ?app_nil_r.
    + destruct (hasKey sourceKey fields); simpl;
        rewrite <- (app_nil_r (if hasKey serviceContextKey fields then _ else _)) at 1;
        rewrite (Hctx [] (Forall_nil_2 _));
        destruct (hasKey contextKey fields), (hasKey serviceContextKey fields);
        simpl; by rewrite <- ?app_assoc, ?app_nil_r.
  - destruct (hasKey serviceContextKey fields); simpl;
      by rewrite ?app_nil_r.
Qed.

(** X21. [Write] hands the fields it was given to the wrapped core, in their
    order, followed by the ones it adds; it adds only the service context,
    the source location and the error report, each at most once and none
    whose key is among the given ones.  The service context is there in the
    end, and keys that were all different still are. *)
Theorem Write_adds_what_is_missing (w : W) c ent fields :
  ∃ extra,
    Write FuncForPC coreWrite w c ent fields
      = coreWrite w (core c) ent (fields ++ extra) ∧
    writeFields FuncForPC c ent fields = fields ++ extra ∧
    NoDup (Key <$> extra) ∧
    (∀ key, key ∈ Key <$> extra ->
            (key ∉ Key <$> fields) ∧
            key ∈ [serviceContextKey; sourceKey; contextKey]) ∧
    serviceContextKey ∈ Key <$> (fields ++ extra) ∧
    (NoDup (Key <$> fields) -> NoDup (Key <$> (fields ++ extra))).
Proof.
  eexists. split; [unfold Write; by rewrite writeFields_shape|].
  split; [apply writeFields_shape|].
  match goal with |- NoDup (Key <$> ?e) ∧ _ => set (extra := e) end.
  assert (Hnd : NoDup (Key <$> extra)).
  { subst extra.
    destruct (hasKey serviceContextKey fields),
      (LevelEnabled ErrorLevel (Level ent) && Defined (Caller ent)),
      (hasKey sourceKey fields), (hasKey contextKey fields);
      simpl; decide_keys. }
  assert (Hkeys : ∀ key, key ∈ Key <$> extra ->
            (key ∉ Key <$> fields)
            ∧ key ∈ [serviceContextKey; sourceKey; contextKey]).
  { subst extra. intros key. rewrite !fmap_app, !elem_of_app.
    destruct (LevelEnabled ErrorLevel (Level ent) && Defined (Caller ent)).
    2: simpl; rewrite !elem_of_nil.
    all: intros [Hk|[Hk|Hk]]; try done.
    all: simpl in Hk.
    all: match type of Hk with
         | context [hasKey ?k ?fs] =>
             destruct (hasKey k fs) eqn:Hhas;
               [by apply elem_of_nil in Hk|];
             apply list_elem_of_singleton in Hk; subst key;
             split; [by apply hasKey_false|in_entries]
         end. }
  split; [done|]. split; [done|]. split.
  - rewrite fmap_app, elem_of_app. subst extra.
    destruct (hasKey serviceContextKey fields) eqn:Hhas.
    + left. by apply hasKey_elem.
    + right. apply list_elem_of_here.
  - intros Hfields. rewrite fmap_app. apply NoDup_app.
    split; [done|]. split; [|done].
    intros key Hin Hex. by apply (Hkeys key).
Qed.

(** X22. Writing through a second core of the package changes nothing more:
    what one [Write] has completed, another one leaves as it is. *)
Theorem Write_completes_once c c' ent fields :
  writeFields FuncForPC c' ent (writeFields FuncForPC c ent fields)
  = writeFields FuncForPC c ent fields.
Proof.
  rewrite (writeFields_shape c ent fields).
  match goal with |- _ = ?l => set (out := l) end.
  rewrite writeFields_shape.
  set (en := LevelEnabled ErrorLevel (Level ent) && Defined (Caller ent)).
  assert (Hhas : ∀ key l1 l2, hasKey key (l1 ++ l2)
                   = hasKey key l1 || hasKey key l2).
  { intros. apply existsb_app. }
  assert (Hsvc : hasKey serviceContextKey out = true).
  { unfold out. rewrite Hhas.
    destruct (hasKey serviceContextKey fields); [done|].
    by rewrite Hhas. }
  assert (Hsrc : en = true -> hasKey sourceKey out = true).
  { intros Hen. unfold out. fold en. rewrite Hen, !Hhas.
    destruct (hasKey sourceKey fields); [done|]. simpl.
    by rewrite orb_true_r. }
  assert (Hctx : en = true -> hasKey contextKey out = true).
  { intros Hen. unfold out. fold en. rewrite Hen, !Hhas.
    destruct (hasKey contextKey fields); [done|]. simpl.
    by rewrite !orb_true_r. }
  rewrite Hsvc. destruct en; simpl; [|by rewrite app_nil_r].
  rewrite Hsrc, Hctx by done. simpl. by rewrite app_nil_r.
Qed.

(** X23. Below the error level [Write] adds neither a source location nor an
    error report; from the error level on, and with a caller that is
    known, both keys are among the fields. *)
Theorem Write_reports_errors c ent fields :
  let out := Key <$> writeFields FuncForPC c ent fields in
  ((Level ent < ErrorLevel)%Z ->
     ∀ key, key ≠ serviceContextKey -> key ∈ out -> key ∈ Key <$> fields) ∧
  ((ErrorLevel ≤ Level ent)%Z -> Defined (Caller ent) = true ->
     sourceKey ∈ out ∧ contextKey ∈ out).
Proof.
  simpl. rewrite writeFields_shape. unfold LevelEnabled. split.
  - intros Hlt key Hkey. rewrite bool_decide_eq_false_2 by lia. simpl.
    rewrite app_nil_r, fmap_app, elem_of_app. intros [Hin|Hin]; [done|].
    destruct (hasKey serviceContextKey fields);
      [by apply elem_of_nil in Hin|].
    apply list_elem_of_singleton in Hin. by subst.
  - intros Hle ->. rewrite bool_decide_eq_true_2 by done. simpl.
    rewrite !fmap_app, !elem_of_app. split.
    + destruct (hasKey sourceKey fields) eqn:Hhas.
      * left. by apply hasKey_elem.
      * right; right; left. apply list_elem_of_here.
    + destruct (hasKey contextKey fields) eqn:Hhas.
      * left. by apply hasKey_elem.
      * right; right; right. apply list_elem_of_here.
Qed.

(** X24. A core keeps the service it was wrapped with through any number of
    [With] calls, which only reach the wrapped core; an empty name or
    version was replaced by [unknown], so neither is ever empty. *)
Theorem service_is_kept (inner : C) (name version : string)
    (more : list (list Field)) :
  let c := foldl (With coreWith) (WrapCore inner name version) more in
  core c = foldl coreWith inner more ∧
  Name (service c) = (if bool_decide (name = "") then "unknown" else name) ∧
  Version (service c)
    = (if bool_decide (version = "") then "unknown" else version) ∧
  Name (service c) ≠ "" ∧ Version (service c) ≠ "".
Proof.
  simpl.
  assert (Hfold : ∀ c0 : Core,
            core (foldl (With coreWith) c0 more) = foldl coreWith (core c0) more
            ∧ service (foldl (With coreWith) c0 more) = service c0).
  { induction more as [|fields more' IH]; intros c0; [done|]. simpl.
    destruct (IH (With coreWith c0 fields)) as [-> ->]. done. }
  destruct (Hfold (WrapCore inner name version)) as [-> ->]. simpl.
  repeat split; repeat case_bool_decide; done.
Qed.
End core.

End StackdriverFacts.

(** * The logging package *)

Module LoggingFacts.
Import Logging.

Section facts.

Context {Logger Field W : Type}.
Variable loggerError
  : W -> option Logger -> string -> error (Logger := Logger) -> outcome W.
Variable nullLogger : Logger.
Variable loggerWith : Logger -> list Field -> Logger.

Implicit Types (w : world (Logger := Logger) (W := W)).
Implicit Types (e : error (Logger := Logger)) (ctx : Context (Logger := Logger)).

Lemma asLoggingError_wrapAll texts e :
  asLoggingError (wrapAll texts e) = asLoggingError e.
Proof. induction texts as [|text texts IH]; [done|]. exact IH. Qed.

(** X25. [Exit] answers 0 for nil alone and logs nothing then.  For an error it
    calls [Error] once, with the whole error: on the logger and with the
    message of the [*LoggingError] under however many layers of wrapping,
    a [*LoggingError] inside that one not being looked at; and on the
    global logger with the message [exit] when the chain ends in an error
    that is none.  It answers 1 when that call returns. *)
Theorem Exit_picks_the_logger w (texts : list string) :
  Exit loggerError w None = (w, Returns 0%Z) ∧
  (∀ e, (Exit loggerError w (Some e)).2 ≠ Returns 0%Z) ∧
  (∀ logger message cause,
     let e := wrapAll texts (ErrLogging logger message cause) in
     let r := Exit loggerError w (Some e) in
     logged r.1 = logged w ++ [(logger, message, e)] ∧
     r.2 = match loggerError (sink w) logger message e with
           | Returns _ => Returns 1%Z
           | Panics => Panics
           end) ∧
  (∀ text,
     let e := wrapAll texts (Plain text) in
     let r := Exit loggerError w (Some e) in
     logged r.1 = logged w ++ [(global w, "exit", e)] ∧
     r.2 = match loggerError (sink w) (global w) "exit" e with
           | Returns _ => Returns 1%Z
           | Panics => Panics
           end).
Proof.
  split; [done|]. split; [|split].
  - intros e. unfold Exit.
    destruct (asLoggingError e) as [[logger message]|];
      by destruct (loggerError _ _ _ _).
  - intros logger message cause. simpl. unfold Exit.
    rewrite asLoggingError_wrapAll. simpl.
    by destruct (loggerError _ _ _ _).
  - intros text. simpl. unfold Exit.
    rewrite asLoggingError_wrapAll. simpl.
    by destruct (loggerError _ _ _ _).
Qed.

Lemma Value_WithValue ctx key key' val :
  Value (WithValue ctx key' val) key
    = if decide (key' = key) then Some val else Value ctx key.
Proof.
  unfold Value, WithValue. simpl.
  destruct (decide (key' = key)) as [->|Hne]; [done|].
  by destruct (list_find _ ctx) as [[i kv]|].
Qed.

Lemma FromContext_ToContext ctx (l : option Logger) :
  FromContext nullLogger (ToContext nullLogger ctx l) = default nullLogger l.
Proof.
  unfold FromContext, ToContext. by rewrite Value_WithValue.
Qed.

Lemma FromContext_AddFields ctx (fields : list Field) :
  FromContext nullLogger (AddFields nullLogger loggerWith ctx fields)
    = loggerWith (FromContext nullLogger ctx) fields.
Proof. unfold AddFields. by rewrite FromContext_ToContext. Qed.

Lemma AddFields_fold ctx (more : list (list Field)) (id : nat) :
  FromContext nullLogger (foldl (AddFields nullLogger loggerWith) ctx more)
    = foldl loggerWith (FromContext nullLogger ctx) more ∧
  Value (foldl (AddFields nullLogger loggerWith) ctx more) (otherKey id)
    = Value ctx (otherKey id).
Proof.
  revert ctx.
  induction more as [|fields more' IH]; intros ctx; [done|]. simpl.
  destruct (IH (AddFields nullLogger loggerWith ctx fields)) as [-> ->].
  rewrite FromContext_AddFields. split; [done|].
  unfold AddFields, ToContext. by rewrite Value_WithValue.
Qed.

(** X26. The logger of a context.  What [ToContext] puts in [FromContext]
    reads back, the nop logger for nil; a value under the marker that is
    no logger, or a nil one, reads as the nop logger, and so does a
    context with nothing.  The fields of several [AddFields] add up on
    that one logger in the order of the calls.  Values under other keys
    do not hide the logger, and neither [ToContext] nor [AddFields]
    changes what is under other keys. *)
Theorem context_keeps_the_logger ctx (l : Logger) (id : nat)
    (val : ctxValue (Logger := Logger)) (what : string)
    (more : list (list Field)) :
  let ctx' := foldl (AddFields nullLogger loggerWith) ctx more in
  FromContext nullLogger (ToContext nullLogger ctx (Some l)) = l ∧
  FromContext nullLogger (ToContext nullLogger ctx None) = nullLogger ∧
  FromContext nullLogger [] = nullLogger ∧
  FromContext nullLogger (WithValue ctx ctxMarkerKey (VOther what))
    = nullLogger ∧
  FromContext nullLogger (WithValue ctx ctxMarkerKey (VLogger None))
    = nullLogger ∧
  FromContext nullLogger (WithValue ctx (otherKey id) val)
    = FromContext nullLogger ctx ∧
  Value (ToContext nullLogger ctx (Some l)) (otherKey id)
    = Value ctx (otherKey id) ∧
  FromContext nullLogger ctx'
    = foldl loggerWith (FromContext nullLogger ctx) more ∧
  Value ctx' (otherKey id) = Value ctx (otherKey id).
Proof.
  simpl. destruct (AddFields_fold ctx more id) as [-> ->].
  rewrite !FromContext_ToContext. unfold FromContext, ToContext.
  rewrite !Value_WithValue. by repeat split.
Qed.

End facts.

End LoggingFacts.

(** * The handlers of the todo service *)

Module TodoFacts.
Import Todo.

Section facts.

Context {Stmt Err DB Time : Type}.
Variable zeroTime : Time.
Variable prepare : DB -> string -> DB * (option Stmt * option Err).
Variable stmtQuery
  : DB -> option Stmt -> list (arg (Time := Time))
    -> DB * outcome (option (Rows (Err := Err) (Time := Time)) * option Err).
Variable stmtExec
  : DB -> option Stmt -> list (arg (Time := Time))
    -> DB * outcome (option (Result (Err := Err)) * option Err).
Variable rowsClose : DB -> Rows (Err := Err) (Time := Time) -> DB * option Err.

Implicit Types (s : Server (Stmt := Stmt)).
Implicit Types (w : world (Stmt := Stmt) (Err := Err) (DB := DB) (Time := Time)).
Implicit Types (c : StmtCache.stmtCache (Stmt := Stmt)).
Implicit Types (bw : StmtCache.world (Stmt := Stmt) (DB := DB)).
Implicit Types (rows : Rows (Err := Err) (Time := Time)).
Implicit Types (query key : string).

Local Abbreviation ListTasks :=
  (ListTasks zeroTime prepare stmtQuery rowsClose).
Local Abbreviation GetTask := (GetTask zeroTime prepare stmtQuery rowsClose).
Local Abbreviation CreateTask := (CreateTask prepare stmtExec).
Local Abbreviation serve :=
  (serve zeroTime prepare stmtQuery stmtExec rowsClose).
Local Abbreviation serveAll :=
  (serveAll zeroTime prepare stmtQuery stmtExec rowsClose).
Local Abbreviation QueryContext := (StmtCache.QueryContext prepare stmtQuery).
Local Abbreviation ExecContext := (StmtCache.ExecContext prepare stmtExec).
Local Abbreviation PrepareContext := (StmtCache.PrepareContext prepare).

Lemma scanAll_rows (cs : list columns) (rest : list (columns + Err)) tasks :
  scanAll zeroTime ((inl <$> cs) ++ rest) tasks
    = scanAll zeroTime rest (tasks ++ (toTask zeroTime <$> cs)).
Proof.
  revert tasks. induction cs as [|col cs IH]; intros tasks; simpl.
  - by rewrite app_nil_r.
  - rewrite IH. by rewrite <- app_assoc.
Qed.

(** X27. When its query gives rows, [ListTasks] closes them before it returns,
    whatever it returns: the task of every row, in the order of the rows,
    when every row scans, and the error of the first row that does not,
    with no task at all, then. *)
Theorem ListTasks_lists_rows s w c bw rows :
  QueryContext (stmtCache s) (base w) listQuery []
    = (c, bw, Returns (Some rows, None)) ->
  let r := ListTasks s w in
  stmtCache r.1.1 = c ∧
  rowsClosed r.1.2 = rowsClosed w ++ [rows] ∧
  (∀ cs, pending rows = inl <$> cs ->
         r.2 = Returns (Some (toTask zeroTime <$> cs), None)) ∧
  (∀ cs err rest, pending rows = (inl <$> cs) ++ inr err :: rest ->
                  r.2 = Returns (None, Some (InternalErrorWith err))).
Proof.
  intros Hq. unfold Todo.ListTasks. rewrite Hq. simpl.
  split; [done|]. split.
  { unfold closeRows. simpl. by destruct (rowsClose _ rows). }
  split.
  - intros cs Hrows. rewrite Hrows.
    rewrite <- (app_nil_r (inl <$> cs)), scanAll_rows. done.
  - intros cs err rest Hrows. rewrite Hrows, scanAll_rows. done.
Qed.

(** When its query gives rows, [GetTask] closes them before it returns and
    looks at the first row only: it answers not found exactly when there
    is no row, and a task exactly when the first row scans, the task of
    that row. *)
Lemma GetTask_reads_first_row s w id c bw rows :
  QueryContext (stmtCache s) (base w) getQuery [ArgUint id]
    = (c, bw, Returns (Some rows, None)) ->
  let r := GetTask s w id in
  stmtCache r.1.1 = c ∧
  rowsClosed r.1.2 = rowsClosed w ++ [rows] ∧
  ((∃ text, r.2 = Returns (None, Some (NotFound text)))
     ↔ pending rows = []) ∧
  (∀ task, r.2 = Returns (Some task, None)
           ↔ ∃ col, head (pending rows) = Some (inl col)
                    ∧ task = toTask zeroTime col) ∧
  (∀ err, r.2 = Returns (None, Some (InternalErrorWith err))
          ↔ head (pending rows) = Some (inr err)).
Proof.
  intros Hq. unfold Todo.GetTask. rewrite Hq. simpl.
  split; [done|]. split.
  { unfold closeRows. simpl. by destruct (rowsClose _ rows). }
  destruct (pending rows) as [|[col|err] rest]; simpl.
  - split; [split; [done|by eexists]|]. split.
    + intros task. split; [done|]. by intros [col [? _]].
    + intros err. split; done.
  - split; [split; [by intros [text ?]|done]|]. split.
    + intros task. split.
      * intros [= <-]. by exists col.
      * intros [col' [[= <-] ->]]. done.
    + intros err. split; done.
  - split; [split; [by intros [text ?]|done]|]. split.
    + intros task. split; [done|]. by intros [col [? _]].
    + intros err'. split; [by intros [= ->]|by intros [= ->]].
Qed.

(** X28. When running the insert gives a result, [CreateTask] answers the task
    it was asked to create, with the time it took before the insert and
    no error, whatever [LastInsertId] says about an error; the id is that
    of the insert as a [uint64], the same number when it is not
    negative. *)
Theorem CreateTask_echoes_request s w title description now c bw res :
  ExecContext (stmtCache s) (base w) createQuery
    [ArgTime now; ArgString title; ArgString description]
    = (c, bw, Returns (Some res, None)) ->
  let r := CreateTask s w title description now in
  let id := (LastInsertId res).1 in
  r.1 = ({| stmtCache := c |}, {| base := bw; rowsClosed := rowsClosed w |}) ∧
  r.2 = Returns (Some {| Id := uint64 id; Created := now; Title := title;
                         Description := description |}, None) ∧
  (uint64 id < 2 ^ 64)%N ∧
  ((0 ≤ id < 2 ^ 63)%Z -> Z.of_N (uint64 id) = id) ∧
  ((- 2 ^ 63 ≤ id < 0)%Z -> Z.of_N (uint64 id) = (id + 2 ^ 64)%Z).
Proof.
  intros He. unfold Todo.CreateTask. rewrite He. simpl.
  destruct (LastInsertId res) as [id err]. simpl.
  split; [done|]. split; [done|]. unfold uint64.
  assert (Hmod : (0 ≤ id mod 2 ^ 64 < 2 ^ 64)%Z)
    by (apply Z.mod_pos_bound; lia).
  split; [lia|]. rewrite Z2N.id by lia. split.
  - intros Hid. apply Z.mod_small. lia.
  - intros Hid. symmetry. apply (Z.mod_unique_pos _ _ (-1)); lia.
Qed.

(** X29. When the statement of a handler cannot be prepared, the handler
    answers twirp's internal error around the error of the preparer and no
    response; the cache is as it was, no rows were closed, and nothing
    was done beyond the call of the preparer. *)
Theorem handlers_report_prepare_failure s w e title description now id :
  let failing query :=
    (PrepareContext (stmtCache s) (base w) query).2.2 = Some e in
  let stopped (sw : Server * world) query :=
    sw.1 = s ∧ rowsClosed sw.2 = rowsClosed w ∧
    base sw.2 = (PrepareContext (stmtCache s) (base w) query).1.2 in
  (failing listQuery ->
     (ListTasks s w).2 = Returns (None, Some (InternalErrorWith e))
     ∧ stopped (ListTasks s w).1 listQuery) ∧
  (failing createQuery ->
     (CreateTask s w title description now).2
       = Returns (None, Some (InternalErrorWith e))
     ∧ stopped (CreateTask s w title description now).1 createQuery) ∧
  (failing getQuery ->
     (GetTask s w id).2 = Returns (None, Some (InternalErrorWith e))
     ∧ stopped (GetTask s w id).1 getQuery).
Proof.
  assert (Hsame : ∀ query,
            (PrepareContext (stmtCache s) (base w) query).2.2 = Some e ->
            (PrepareContext (stmtCache s) (base w) query).1.1 = stmtCache s).
  { intros query. unfold StmtCache.PrepareContext.
    destruct (StmtCache.statements (stmtCache s) !! query); [done|].
    destruct (StmtCache.call_prepare _ _ _) as [w' [stmt [e'|]]]; done. }
  destruct s as [c]. simpl in *.
  split; [|split]; intros Hfail; specialize (Hsame _ Hfail);
    unfold Todo.ListTasks, Todo.CreateTask, Todo.GetTask,
      StmtCache.QueryContext, StmtCache.ExecContext; simpl;
    destruct (StmtCache.PrepareContext _ _ _ _) as [[c' bw] [stmt err]];
    simpl in *; subst; done.
Qed.

Ltac in_three :=
  repeat first [apply list_elem_of_here | apply list_elem_of_further].

Lemma closeRows_base rows w :
  StmtCache.prepared (base (closeRows rowsClose rows w))
    = StmtCache.prepared (base w)
  ∧ rowsClosed (closeRows rowsClose rows w) = rowsClosed w ++ [rows].
Proof. unfold closeRows. by destruct (rowsClose _ rows). Qed.

(** A handler leaves the cache and the log of the preparer as the call of
    the cache inside it does, and takes no closed rows back. *)
Lemma ListTasks_cache s w :
  stmtCache (ListTasks s w).1.1
    = (QueryContext (stmtCache s) (base w) listQuery []).1.1 ∧
  StmtCache.prepared (base (ListTasks s w).1.2)
    = StmtCache.prepared
        (QueryContext (stmtCache s) (base w) listQuery []).1.2 ∧
  rowsClosed w `prefix_of` rowsClosed (ListTasks s w).1.2.
Proof.
  unfold Todo.ListTasks.
  destruct (QueryContext _ _ _ _) as [[c bw] [[[rows|] [err|]]|]]; simpl;
    rewrite ?(proj1 (closeRows_base _ _)), ?(proj2 (closeRows_base _ _));
    simpl; (split; [done|]; split; [done|]); try done;
    by apply prefix_app_r.
Qed.

Lemma GetTask_cache s w id :
  stmtCache (GetTask s w id).1.1
    = (QueryContext (stmtCache s) (base w) getQuery [ArgUint id]).1.1 ∧
  StmtCache.prepared (base (GetTask s w id).1.2)
    = StmtCache.prepared
        (QueryContext (stmtCache s) (base w) getQuery [ArgUint id]).1.2 ∧
  rowsClosed w `prefix_of` rowsClosed (GetTask s w id).1.2.
Proof.
  unfold Todo.GetTask.
  destruct (QueryContext _ _ _ _) as [[c bw] [[[rows|] [err|]]|]]; simpl;
    rewrite ?(proj1 (closeRows_base _ _)), ?(proj2 (closeRows_base _ _));
    simpl; (split; [done|]; split; [done|]); try done;
    by apply prefix_app_r.
Qed.

Lemma CreateTask_cache s w title description now :
  let args := [ArgTime now; ArgString title; ArgString description] in
  stmtCache (CreateTask s w title description now).1.1
    = (ExecContext (stmtCache s) (base w) createQuery args).1.1 ∧
  StmtCache.prepared (base (CreateTask s w title description now).1.2)
    = StmtCache.prepared
        (ExecContext (stmtCache s) (base w) createQuery args).1.2 ∧
  rowsClosed (CreateTask s w title description now).1.2 = rowsClosed w.
Proof.
  unfold Todo.CreateTask. simpl.
  destruct (ExecContext _ _ _ _) as [[c bw] [[[res|] [err|]]|]]; simpl;
    try done.
  by destruct (LastInsertId res).
Qed.

(** What one request leaves of a key other than the query of its
    handler. *)
Lemma serve_other (sw : Server * world) (r : request) key :
  key ∉ [listQuery; createQuery; getQuery] ->
  StmtCache.statements (stmtCache (serve sw r).1) !! key
    = StmtCache.statements (stmtCache sw.1) !! key ∧
  filter (eq key) (StmtCache.prepared (base (serve sw r).2))
    = filter (eq key) (StmtCache.prepared (base sw.2)) ∧
  rowsClosed sw.2 `prefix_of` rowsClosed (serve sw r).2.
Proof.
  intros Hkey. destruct sw as [s w].
  assert (Hl : key ≠ listQuery) by (intros ->; apply Hkey; in_three).
  assert (Hc : key ≠ createQuery) by (intros ->; apply Hkey; in_three).
  assert (Hg : key ≠ getQuery) by (intros ->; apply Hkey; in_three).
  destruct r as [|title description now|id]; simpl.
  - destruct (ListTasks_cache s w) as (-> & -> & Hpre).
    destruct (StmtCacheFacts.QueryContext_cache prepare stmtQuery
                (stmtCache s) (base w) listQuery []) as [-> ->].
    destruct (StmtCacheFacts.PrepareContext_other prepare
                (stmtCache s) (base w) listQuery key Hl) as [-> ->].
    done.
  - destruct (CreateTask_cache s w title description now) as (-> & -> & ->).
    destruct (StmtCacheFacts.ExecContext_cache prepare stmtExec
                (stmtCache s) (base w) createQuery
                [ArgTime now; ArgString title; ArgString description])
      as [-> ->].
    destruct (StmtCacheFacts.PrepareContext_other prepare
                (stmtCache s) (base w) createQuery key Hc) as [-> ->].
    done.
  - destruct (GetTask_cache s w id) as (-> & -> & Hpre).
    destruct (StmtCacheFacts.QueryContext_cache prepare stmtQuery
                (stmtCache s) (base w) getQuery [ArgUint id]) as [-> ->].
    destruct (StmtCacheFacts.PrepareContext_other prepare
                (stmtCache s) (base w) getQuery key Hg) as [-> ->].
    done.
Qed.

Lemma serveAll_other (rs : list request) (sw : Server * world) key :
  key ∉ [listQuery; createQuery; getQuery] ->
  StmtCache.statements (stmtCache (serveAll rs sw).1) !! key
    = StmtCache.statements (stmtCache sw.1) !! key ∧
  filter (eq key) (StmtCache.prepared (base (serveAll rs sw).2))
    = filter (eq key) (StmtCache.prepared (base sw.2)) ∧
  rowsClosed sw.2 `prefix_of` rowsClosed (serveAll rs sw).2.
Proof.
  intros Hkey. revert sw.
  induction rs as [|r rs IH]; intros sw.
  { split; [done|]. split; [done|]. reflexivity. }
  simpl.
  destruct (IH (serve sw r)) as (-> & -> & Hpre).
  destruct (serve_other sw r key Hkey) as (-> & -> & Hpre').
  split; [done|]. split; [done|]. by etrans.
Qed.

(** X30. Whatever requests the service handles, the cache gets no statement
    under a key other than the three queries of the handlers, the
    preparer is asked for no other, and rows that were closed stay
    recorded. *)
Theorem handlers_use_three_queries (rs : list request) s w key :
  key ∉ [listQuery; createQuery; getQuery] ->
  let sw := serveAll rs (s, w) in
  StmtCache.statements (stmtCache sw.1) !! key
    = StmtCache.statements (stmtCache s) !! key ∧
  filter (eq key) (StmtCache.prepared (base sw.2))
    = filter (eq key) (StmtCache.prepared (base w)) ∧
  rowsClosed w `prefix_of` rowsClosed sw.2.
Proof. intros Hkey. exact (serveAll_other rs (s, w) key Hkey). Qed.

End facts.

End TodoFacts.

(** * The other packages, run *)

Module MetadataRuns.
Import Metadata Cases.


Lemma FromConfig_is_read_back_witness :
  Versions [Some "v9"; None] (FromConfig (Config.mk "todo" "v1") (Config.mk "" ""))
    = (Config.mk "todo" "v1", ["v1"; "v1"]).
Proof.
  assert (Hv : Config.Version (Config.mk "todo" "v1") ≠ "") by discriminate.
  exact (proj1 (proj2 (MetadataFacts.FromConfig_is_read_back
                         (Config.mk "todo" "v1") (Config.mk "" "")
                         [Some "v9"; None])) Hv).
Defined.

End MetadataRuns.

Module StackdriverRuns.
Import Stackdriver Cases.

Lemma severities_witness :
  encodeLevel 7 ["x"] = ["x"; ""] ∧ encodeLevel ErrorLevel [] ≠ [""].
Proof.
  assert (Hout : (7 < -1 ∨ 5 < 7)%Z) by (right; lia).
  assert (Hin : (-1 ≤ ErrorLevel ≤ 5)%Z) by (unfold ErrorLevel; lia).
  split.
  - exact (proj2 (proj2 (StackdriverFacts.severities 7 0 ["x"])) Hout).
  - exact (proj1 (proj2 (StackdriverFacts.severities ErrorLevel 0 [])) Hin).
Defined.

(** An error entry written with an HTTP field and a source location of
    the caller's own: the service context and the error report are
    added, the source location is not. *)
Lemma Write_adds_what_is_missing_witness :
  let fields := [HTTP None; SourceLocation inMain 1 "x.go" 1 true] in
  NoDup (Key <$> fields) ∧
  ∃ extra,
    Write inMain keepFields [] todoCore errorEntry fields
      = ([fields ++ extra], None) ∧
    Key <$> extra = [serviceContextKey; contextKey] ∧
    NoDup (Key <$> (fields ++ extra)).
Proof.
  intros fields.
  assert (Hnd : NoDup (Key <$> fields))
    by (apply (bool_decide_unpack _); vm_compute; exact I).
  split; [exact Hnd|].
  destruct (StackdriverFacts.Write_adds_what_is_missing inMain keepFields
              [] todoCore errorEntry fields)
    as (extra & Hwrite & Hfields & _ & _ & _ & Hkeys).
  exists extra. split; [exact Hwrite|]. split; [|exact (Hkeys Hnd)].
  vm_compute in Hfields. injection Hfields as Hextra.
  rewrite <- Hextra. reflexivity.
Defined.

Lemma Write_reports_errors_witness :
  (Level infoEntry < ErrorLevel)%Z ∧
  (ErrorLevel ≤ Level errorEntry)%Z ∧
  ("context" ∈ Key <$> writeFields inMain todoCore infoEntry [HTTP None] ->
   "context" ∈ Key <$> [HTTP None]) ∧
  sourceKey ∈ Key <$> writeFields inMain todoCore errorEntry [HTTP None] ∧
  contextKey ∈ Key <$> writeFields inMain todoCore errorEntry [HTTP None].
Proof.
  assert (Hlt : (Level infoEntry < ErrorLevel)%Z) by reflexivity.
  assert (Hle : (ErrorLevel ≤ Level errorEntry)%Z) by (simpl; lia).
  assert (Hkey : "context" ≠ serviceContextKey) by discriminate.
  split; [exact Hlt|]. split; [exact Hle|]. split.
  - exact (proj1 (StackdriverFacts.Write_reports_errors inMain todoCore
                    infoEntry [HTTP None]) Hlt "context" Hkey).
  - exact (proj2 (StackdriverFacts.Write_reports_errors inMain todoCore
                    errorEntry [HTTP None]) Hle eq_refl).
Defined.

End StackdriverRuns.

Module TodoRuns.
Import Todo Scenario Cases.

(** Two rows, the second with NULLs. *)
Lemma ListTasks_lists_rows_witness :
  let q := StmtCache.QueryContext numbering tableQuery emptyCache emptyWorld
             listQuery [] in
  let r := ListTasks 0 numbering tableQuery rowsClosing todoServer todoWorld in
  q.2 = Returns (Some twoRows, None) ∧
  rowsClosed r.1.2 = [twoRows] ∧
  r.2 = Returns (Some [mkTask 1%N 100 "milk" "two litres";
                       mkTask 2%N 0 "bread" ""], None).
Proof.
  intros q r.
  assert (Hq : StmtCache.QueryContext numbering tableQuery
                 (stmtCache todoServer) (base todoWorld) listQuery []
               = (q.1.1, q.1.2, Returns (Some twoRows, None)))
    by (vm_compute; reflexivity).
  destruct (TodoFacts.ListTasks_lists_rows 0 numbering tableQuery rowsClosing
              todoServer todoWorld q.1.1 q.1.2 twoRows Hq)
    as (_ & Hclosed & Hall & _).
  split; [reflexivity|]. split; [exact Hclosed|].
  exact (Hall [mkColumns 1%N (Some 100) (Some "milk") (Some "two litres");
               mkColumns 2%N None (Some "bread") None] eq_refl).
Defined.

(** The driver answers -1 and an error for the last id: the task has the
    largest [uint64] as its id, and no error is returned. *)
Lemma CreateTask_echoes_request_witness :
  let e := StmtCache.ExecContext numbering insertExec emptyCache emptyWorld
             createQuery [ArgTime 100; ArgString "milk"; ArgString ""] in
  let r := CreateTask numbering insertExec todoServer todoWorld "milk" "" 100 in
  e.2 = Returns (Some (mkResult (-1, Some "no last insert id")%Z), None) ∧
  r.2 = Returns (Some (mkTask 18446744073709551615%N 100 "milk" ""), None).
Proof.
  intros e r.
  assert (He : StmtCache.ExecContext numbering insertExec
                 (stmtCache todoServer) (base todoWorld) createQuery
                 [ArgTime 100; ArgString "milk"; ArgString ""]
               = (e.1.1, e.1.2,
                  Returns (Some (mkResult (-1, Some "no last insert id")%Z),
                           None)))
    by (vm_compute; reflexivity).
  destruct (TodoFacts.CreateTask_echoes_request numbering insertExec
              todoServer todoWorld "milk" "" 100 e.1.1 e.1.2 _ He)
    as (_ & Hr & _).
  split; [reflexivity|]. exact Hr.
Defined.

(** The database is down. *)
Lemma handlers_report_prepare_failure_witness :
  (ListTasks 0 down tableQuery rowsClosing todoServer todoWorld).2
    = Returns (None, Some (InternalErrorWith "connection refused")) ∧
  (CreateTask down insertExec todoServer todoWorld "milk" "" 100).2
    = Returns (None, Some (InternalErrorWith "connection refused")) ∧
  (GetTask 0 down tableQuery rowsClosing todoServer todoWorld 7).2
    = Returns (None, Some (InternalErrorWith "connection refused")) ∧
  (GetTask 0 down tableQuery rowsClosing todoServer todoWorld 7).1.1
    = todoServer.
Proof.
  destruct (TodoFacts.handlers_report_prepare_failure 0 down tableQuery
              insertExec rowsClosing todoServer todoWorld
              "connection refused" "milk" "" 100 7%N)
    as (Hlist & Hcreate & Hget).
  split; [exact (proj1 (Hlist eq_refl))|].
  split; [exact (proj1 (Hcreate eq_refl))|].
  split; [exact (proj1 (Hget eq_refl))|].
  exact (proj1 (proj2 (Hget eq_refl))).
Defined.

(** Four requests, and a query that is none of the handlers'. *)
Lemma handlers_use_three_queries_witness :
  let rs := [ReqList; ReqCreate "milk" "" 100; ReqGet 1; ReqList] in
  let sw := serveAll 0 numbering tableQuery insertExec rowsClosing rs
              (todoServer, todoWorld) in
  ("select 1" ∉ [listQuery; createQuery; getQuery]) ∧
  StmtCache.statements (stmtCache sw.1) !! "select 1" = None ∧
  filter (eq "select 1") (StmtCache.prepared (base sw.2)) = [].
Proof.
  intros rs sw.
  assert (Hkey : "select 1" ∉ [listQuery; createQuery; getQuery]).
  { intros H. apply (bool_decide_pack _) in H. vm_compute in H. exact H. }
  destruct (TodoFacts.handlers_use_three_queries 0 numbering tableQuery
              insertExec rowsClosing rs todoServer todoWorld "select 1" Hkey)
    as (Hs & Hp & _).
  split; [exact Hkey|]. split; [exact Hs|exact Hp].
Defined.

End TodoRuns.
